(** * Municipal complaints CLI ([menu_automate.py]): model and properties

    The program keeps four tables in an SQLite file, fills them from
    [;]-separated files and offers ten reports over them.  This file embeds

    - the values and tables of the store (rows keyed by their
      [INTEGER PRIMARY KEY]),
    - the "latest status" derived relation used by most reports,
    - the ten report queries,
    - ingestion ([load_csv_data]),
    - the console behaviour of [ComplaintsDatabase] and [ComplaintsCLI]
      as a state-and-exception monad over a world with a session, the
      tables, standard input and standard output.

    Two things the engine computes in binary floating point are kept exact
    here: the [ROUND(.., 2)] rates are integers counting hundredths, and the
    [julianday] expressions of report 6 are read off a clock carried by the
    world.  Text that the engine would turn into a number is recognised for
    plain decimal integers (optional sign, digits); any other text is kept as
    text. *)

From Stdlib Require Import ZArith Lia Ascii OrderedTypeEx.
From stdpp Require Import gmap strings list fin_maps pretty sorting.

Local Open Scope string_scope.
Local Open Scope list_scope.
Local Open Scope Z_scope.

(** ** Values held in a column *)

(** A non-NULL stored value: an integer or a text.  NULL is [None] in the
    columns that admit it. *)
Inductive value :=
  | VInt (z : Z)
  | VText (s : string).

#[global] Instance value_eq_dec : EqDecision value.
Proof. solve_decision. Defined.

(** SQLite's comparison of values: every integer sorts before every text,
    integers compare numerically, texts byte by byte. *)
Definition value_compare (a b : value) : comparison :=
  match a, b with
  | VInt x, VInt y => Z.compare x y
  | VInt _, VText _ => Lt
  | VText _, VInt _ => Gt
  | VText s, VText t => String.compare s t
  end.

Definition value_le (a b : value) : Prop := value_compare a b ≠ Gt.

#[global] Instance value_le_dec : RelDecision value_le.
Proof. intros a b. unfold value_le. apply _. Defined.

(** *** Text to number *)

Definition digit_of (c : ascii) : option Z :=
  let n := Z.of_N (Ascii.N_of_ascii c) in
  if bool_decide (48 ≤ n ≤ 57) then Some (n - 48) else None.

Fixpoint parse_digits (acc : Z) (s : string) : option Z :=
  match s with
  | EmptyString => Some acc
  | String c r =>
      match digit_of c with
      | Some d => parse_digits (10 * acc + d) r
      | None => None
      end
  end.

Definition parse_unsigned (s : string) : option Z :=
  match s with
  | EmptyString => None
  | _ => parse_digits 0 s
  end.

(** A decimal integer literal: an optional sign and at least one digit. *)
Definition parse_int (s : string) : option Z :=
  match s with
  | String "-"%char r => Z.opp <$> parse_unsigned r
  | String "+"%char r => parse_unsigned r
  | _ => parse_unsigned s
  end.

(** Numeric affinity applied to a text: the text of an integer literal
    becomes that integer, any other text stays as it is.  The store applies
    it to what is written into an [INTEGER] or [DATE] column, and to a text
    parameter compared with such a column. *)
Definition numeric_affinity (s : string) : value :=
  match parse_int s with
  | Some z => VInt z
  | None => VText s
  end.

(** ** Tables *)

(** Rows without their key; a table maps the key to the rest of the row. *)
Record resident := Resident {
  first_name : string;
  last_name : string;
  ward : value;
  email : option string;
  phone : option string }.

Record service_category := ServiceCategory {
  category_name : string }.

Record complaint := Complaint {
  c_resident_id : value;
  c_category_id : value;
  title : string;
  description : option string;
  submission_date : value }.

Record status_log := StatusLog {
  l_complaint_id : value;
  status : string;
  status_date : value }.

Record database := Database {
  residents : gmap Z resident;
  service_categories : gmap Z service_category;
  complaints : gmap Z complaint;
  status_logs : gmap Z status_log }.

Definition empty_database : database := Database ∅ ∅ ∅ ∅.

Definition key_le {A} (x y : Z * A) : Prop := x.1 ≤ y.1.

#[global] Instance key_le_dec {A} : RelDecision (@key_le A).
Proof. intros x y. unfold key_le. apply _. Defined.

(** A table scan: the rows with their keys, in key order. *)
Definition scan {A} (t : gmap Z A) : list (Z * A) :=
  merge_sort key_le (map_to_list t).

(** [ORDER BY k] and [ORDER BY k DESC] on a list of rows. *)
Definition asc {A} (k : A → value) (x y : A) : Prop := value_le (k x) (k y).
Definition desc {A} (k : A → value) (x y : A) : Prop := value_le (k y) (k x).

#[global] Instance asc_dec {A} (k : A → value) : RelDecision (asc k).
Proof. intros x y. unfold asc. apply _. Defined.
#[global] Instance desc_dec {A} (k : A → value) : RelDecision (desc k).
Proof. intros x y. unfold desc. apply _. Defined.

Definition order_by {A} (R : relation A) `{!RelDecision R} (l : list A) : list A :=
  merge_sort R l.

(** ** The latest-status derived relation *)

(** A row of
    [SELECT complaint_id, status, status_date, ROW_NUMBER() OVER
     (PARTITION BY complaint_id ORDER BY status_date DESC) AS rn
     FROM status_logs]. *)
Record sl_row := SlRow {
  sl_complaint_id : value;
  sl_status : string;
  sl_status_date : value;
  sl_rn : nat }.

(** The events of one partition, latest first. *)
Definition partition_rows (k : value) (logs : list (Z * status_log)) : list status_log :=
  order_by (desc status_date)
    (filter (λ e, l_complaint_id e = k) (snd <$> logs)).

(** The rows of one partition with their row numbers, from 1. *)
Definition numbered (k : value) (logs : list (Z * status_log)) : list sl_row :=
  imap (λ i e, SlRow (l_complaint_id e) (status e) (status_date e) (S i))
       (partition_rows k logs).

Definition latest_status_subquery (db : database) : list sl_row :=
  let logs := scan (status_logs db) in
  let keys : list value := remove_dups ((l_complaint_id ∘ snd) <$> logs) in
  k ← keys; numbered k logs.

(** [JOIN (...) sl ON c.complaint_id = sl.complaint_id AND sl.rn = 1] for
    the complaint with key [cid]. *)
Definition join_latest (db : database) (cid : Z) : list sl_row :=
  filter (λ sl, VInt cid = sl_complaint_id sl ∧ sl_rn sl = 1%nat)
         (latest_status_subquery db).

(** [JOIN residents r ON c.resident_id = r.resident_id] *)
Definition join_residents (db : database) (c : complaint) : list (Z * resident) :=
  filter (λ r, c_resident_id c = VInt r.1) (scan (residents db)).

(** [JOIN service_categories sc ON c.category_id = sc.category_id] *)
Definition join_categories (db : database) (c : complaint) : list (Z * service_category) :=
  filter (λ sc, c_category_id c = VInt sc.1) (scan (service_categories db)).

(** The current status of a complaint, as the join sees it: the status of
    the row numbered 1 in its partition, when there is one. *)
Definition current_status (db : database) (cid : Z) : option string :=
  sl_status <$> head (join_latest db cid).

(** ** Result rows *)

(** A value of a result row: NULL, an integer, a real with two decimals
    (counted in hundredths) or a text. *)
Inductive cell :=
  | CNull
  | CInt (z : Z)
  | CReal2 (hundredths : Z)
  | CText (s : string).

#[global] Instance cell_eq_dec : EqDecision cell.
Proof. solve_decision. Defined.

(** A result row ([sqlite3.Row]): the column names with their values, in
    the order of the SELECT list. *)
Definition row := list (string * cell).

Definition cell_of_value (v : value) : cell :=
  match v with
  | VInt z => CInt z
  | VText s => CText s
  end.

Definition cell_of_text (o : option string) : cell :=
  match o with
  | Some s => CText s
  | None => CNull
  end.

(** [ROUND(n * 100.0 / d, 2)] in hundredths, halves rounded away from zero;
    NULL when [d] is 0, as a division by zero is in the engine. *)
Definition rate_cell (n d : Z) : cell :=
  if decide (d = 0) then CNull
  else CReal2 ((2 * (n * 10000) + d) `div` (2 * d)).

(** [r.first_name || ' ' || r.last_name] *)
Definition resident_name (r : resident) : string :=
  first_name r +:+ " " +:+ last_name r.

(** ** The reports *)

(** A row of [complaints c JOIN residents r JOIN service_categories sc
    JOIN (...) sl]. *)
Record joined := Joined {
  j_c : Z * complaint;
  j_r : Z * resident;
  j_sc : Z * service_category;
  j_sl : sl_row }.

Definition j_submission_date (j : joined) : value := submission_date (j_c j).2.

Definition full_join (db : database) : list joined :=
  c ← scan (complaints db);
  r ← join_residents db c.2;
  sc ← join_categories db c.2;
  sl ← join_latest db c.1;
  [Joined c r sc sl].

(** *** 1. Active complaints *)

Definition active_complaints (db : database) : list joined :=
  order_by (desc j_submission_date)
    (filter (λ j, sl_status (j_sl j) ≠ "Resolved") (full_join db)).

Definition row_1 (j : joined) : row :=
  [("complaint_id", CInt (j_c j).1);
   ("resident_name", CText (resident_name (j_r j).2));
   ("category_name", CText (category_name (j_sc j).2));
   ("title", CText (title (j_c j).2));
   ("submission_date", cell_of_value (submission_date (j_c j).2));
   ("status", CText (sl_status (j_sl j)))].

Definition sql_1_active_complaints (db : database) : list row :=
  row_1 <$> active_complaints db.

(** *** 2. Complaints by category *)

Definition complaints_by_category (db : database) (category_id : string) : list joined :=
  order_by (desc j_submission_date)
    (filter (λ j, c_category_id (j_c j).2 = numeric_affinity category_id)
            (full_join db)).

Definition row_2 (j : joined) : row :=
  [("complaint_id", CInt (j_c j).1);
   ("resident_name", CText (resident_name (j_r j).2));
   ("title", CText (title (j_c j).2));
   ("submission_date", cell_of_value (submission_date (j_c j).2));
   ("status", CText (sl_status (j_sl j)))].

Definition sql_2_complaints_by_category (db : database) (category_id : string) : list row :=
  row_2 <$> complaints_by_category db category_id.

(** [SELECT category_id, category_name FROM service_categories
     ORDER BY category_id] *)
Definition sql_2_categories (db : database) : list row :=
  (λ sc : Z * service_category,
     [("category_id", CInt sc.1); ("category_name", CText (category_name sc.2))])
  <$> scan (service_categories db).

(** *** 3. Complaints by ward *)

Definition complaints_by_ward (db : database) (ward_no : string) : list joined :=
  order_by (desc j_submission_date)
    (filter (λ j, ward (j_r j).2 = numeric_affinity ward_no) (full_join db)).

Definition sql_3_complaints_by_ward (db : database) (ward_no : string) : list row :=
  row_1 <$> complaints_by_ward db ward_no.

(** *** 4. Resident history: no [residents] in the FROM clause *)

Definition resident_history (db : database) (resident_id : string)
  : list ((Z * complaint) * (Z * service_category) * sl_row) :=
  order_by (desc (λ j, submission_date j.1.1.2))
    (filter (λ j, c_resident_id j.1.1.2 = numeric_affinity resident_id)
       (c ← scan (complaints db);
        sc ← join_categories db c.2;
        sl ← join_latest db c.1;
        [(c, sc, sl)])).

Definition row_4 (j : (Z * complaint) * (Z * service_category) * sl_row) : row :=
  [("complaint_id", CInt j.1.1.1);
   ("category_name", CText (category_name j.1.2.2));
   ("title", CText (title j.1.1.2));
   ("submission_date", cell_of_value (submission_date j.1.1.2));
   ("status", CText (sl_status j.2))].

Definition sql_4_resident_history (db : database) (resident_id : string) : list row :=
  row_4 <$> resident_history db resident_id.

(** [SELECT first_name || ' ' || last_name AS name FROM residents
     WHERE resident_id = ?] *)
Definition sql_4_resident_name (db : database) (resident_id : string) : list row :=
  (λ r : Z * resident, [("name", CText (resident_name r.2))])
  <$> filter (λ r, VInt r.1 = numeric_affinity resident_id) (scan (residents db)).

(** *** Grouping and the statistics of a group *)

(** [GROUP BY]: the distinct keys, each with the rows that carry it. *)
Definition group_by {A K} `{EqDecision K} (key : A → K) (l : list A) : list (K * list A) :=
  (λ k, (k, filter (λ x, key x = k) l)) <$> remove_dups (key <$> l).

(** [CASE WHEN sl.status = s THEN 1 ELSE 0 END] *)
Definition case_status (s : string) (sl : sl_row) : Z :=
  if decide (sl_status sl = s) then 1 else 0.

(** [SUM(e)] over the rows of a group *)
Definition sql_sum {A} (e : A → Z) (g : list A) : Z :=
  foldr (λ x acc, e x + acc) 0 g.

(** [COUNT( * )] *)
Definition sql_count {A} (g : list A) : Z := Z.of_nat (length g).

Record stats := Stats {
  total_complaints : Z;
  resolved : Z;
  in_progress : Z;
  submitted : Z;
  resolution_rate : cell }.

Definition stats_of (g : list sl_row) : stats :=
  {| total_complaints := sql_count g;
     resolved := sql_sum (case_status "Resolved") g;
     in_progress := sql_sum (case_status "In Progress") g;
     submitted := sql_sum (case_status "Submitted") g;
     resolution_rate := rate_cell (sql_sum (case_status "Resolved") g) (sql_count g) |}.

Definition stats_cells (s : stats) : row :=
  [("total_complaints", CInt (total_complaints s));
   ("resolved", CInt (resolved s));
   ("in_progress", CInt (in_progress s));
   ("submitted", CInt (submitted s));
   ("resolution_rate", resolution_rate s)].

(** *** 5. Resolution statistics by category *)

#[global] Instance service_category_eq_dec : EqDecision service_category.
Proof. solve_decision. Defined.

Definition resolution_statistics (db : database) : list ((Z * service_category) * stats) :=
  order_by (desc (λ g, VInt (total_complaints g.2)))
    ((λ g : (Z * service_category) * list ((Z * service_category) * sl_row),
        (g.1, stats_of (snd <$> g.2)))
     <$> group_by fst
           (c ← scan (complaints db);
            sc ← join_categories db c.2;
            sl ← join_latest db c.1;
            [(sc, sl)])).

Definition sql_5_resolution_statistics (db : database) : list row :=
  (λ g : (Z * service_category) * stats,
     ("category_name", CText (category_name g.1.2)) :: stats_cells g.2)
  <$> resolution_statistics db.

(** *** 6. Overdue complaints *)

(** The clock at the time of the query: the age of a date in
    milliseconds, that is [julianday('now') - julianday(d)]; [None] when
    [d] is not a date and the difference is NULL. *)
Definition clock := value → option Z.

Definition ms_per_day : Z := 86400000.

(** [CAST(julianday('now') - julianday(d) AS INTEGER)] *)
Definition days_old (age_ms : clock) (d : value) : option Z :=
  (λ ms, ms `quot` ms_per_day) <$> age_ms d.

(** [julianday('now') - julianday(d) > 30] *)
Definition over_30_days (age_ms : clock) (d : value) : Prop :=
  match age_ms d with
  | Some ms => 30 * ms_per_day < ms
  | None => False
  end.

#[global] Instance over_30_days_dec age_ms d : Decision (over_30_days age_ms d).
Proof. unfold over_30_days. destruct (age_ms d); apply _. Defined.

(** NULL sorts before every number. *)
Definition null_le (a b : option Z) : Prop :=
  match a, b with
  | None, _ => True
  | Some _, None => False
  | Some x, Some y => x ≤ y
  end.

#[global] Instance null_le_dec : RelDecision null_le.
Proof. intros [x|] [y|]; simpl; apply _. Defined.

Definition by_days_old_desc (age_ms : clock) (x y : joined) : Prop :=
  null_le (days_old age_ms (j_submission_date y)) (days_old age_ms (j_submission_date x)).

#[global] Instance by_days_old_desc_dec age_ms : RelDecision (by_days_old_desc age_ms).
Proof. intros x y. unfold by_days_old_desc. apply _. Defined.

Definition overdue_complaints (age_ms : clock) (db : database) : list joined :=
  order_by (by_days_old_desc age_ms)
    (filter (λ j, sl_status (j_sl j) ≠ "Resolved"
                  ∧ over_30_days age_ms (j_submission_date j))
            (full_join db)).

Definition sql_6_overdue_complaints (age_ms : clock) (db : database) : list row :=
  (λ j, row_1 j ++
        [("days_old", from_option CInt CNull (days_old age_ms (j_submission_date j)))])
  <$> overdue_complaints age_ms db.

(** *** 7. Complaints by status *)

Definition complaints_by_status (db : database) (st : string) : list joined :=
  order_by (desc j_submission_date)
    (filter (λ j, sl_status (j_sl j) = st) (full_join db)).

Definition row_7 (j : joined) : row :=
  [("complaint_id", CInt (j_c j).1);
   ("resident_name", CText (resident_name (j_r j).2));
   ("category_name", CText (category_name (j_sc j).2));
   ("title", CText (title (j_c j).2));
   ("submission_date", cell_of_value (submission_date (j_c j).2));
   ("last_status_date", cell_of_value (sl_status_date (j_sl j)))].

Definition sql_7_complaints_by_status (db : database) (st : string) : list row :=
  row_7 <$> complaints_by_status db st.

(** *** 8. Top complaint categories *)

Definition top_complaint_categories (db : database)
  : list ((Z * service_category) * Z) :=
  order_by (desc (λ g, VInt g.2))
    ((λ g : (Z * service_category) * list (Z * service_category),
        (g.1, sql_count g.2))
     <$> group_by id
           (c ← scan (complaints db); sc ← join_categories db c.2; [sc])).

Definition sql_8_top_complaint_categories (db : database) : list row :=
  (λ g : (Z * service_category) * Z,
     [("category_name", CText (category_name g.1.2));
      ("complaint_count", CInt g.2);
      ("percentage", rate_cell g.2 (sql_count (scan (complaints db))))])
  <$> top_complaint_categories db.

(** *** 9. Ward performance *)

Definition ward_performance (db : database) : list (value * stats) :=
  order_by (desc (λ g, VInt (total_complaints g.2)))
    ((λ g : value * list (value * sl_row), (g.1, stats_of (snd <$> g.2)))
     <$> group_by fst
           (c ← scan (complaints db);
            r ← join_residents db c.2;
            sl ← join_latest db c.1;
            [(ward r.2, sl)])).

Definition sql_9_ward_performance (db : database) : list row :=
  (λ g : value * stats, ("ward", cell_of_value g.1) :: stats_cells g.2)
  <$> ward_performance db.

(** *** 10. Complaint timeline *)

Definition complaint_details (db : database) (complaint_id : string)
  : list ((Z * complaint) * (Z * resident) * (Z * service_category)) :=
  filter (λ j, VInt j.1.1.1 = numeric_affinity complaint_id)
    (c ← scan (complaints db);
     r ← join_residents db c.2;
     sc ← join_categories db c.2;
     [(c, r, sc)]).

Definition sql_10_detail (db : database) (complaint_id : string) : list row :=
  (λ j : (Z * complaint) * (Z * resident) * (Z * service_category),
     [("complaint_id", CInt j.1.1.1);
      ("resident_name", CText (resident_name j.1.2.2));
      ("category_name", CText (category_name j.2.2));
      ("title", CText (title j.1.1.2));
      ("description", cell_of_text (description j.1.1.2));
      ("submission_date", cell_of_value (submission_date j.1.1.2))])
  <$> complaint_details db complaint_id.

Definition complaint_timeline (db : database) (complaint_id : string) : list status_log :=
  order_by (asc status_date)
    (filter (λ e, l_complaint_id e = numeric_affinity complaint_id)
            (snd <$> scan (status_logs db))).

Definition sql_10_timeline (db : database) (complaint_id : string) : list row :=
  (λ e, [("status", CText (status e));
         ("status_date", cell_of_value (status_date e))])
  <$> complaint_timeline db complaint_id.

(** ** Exceptions and results *)

(** The exceptions the program meets, with the text [str(e)] gives. *)
Inductive exn :=
  | KeyboardInterrupt
  | EOFError
  | ValueError
  | KeyError (key : string)
  | IndexError
  | AttributeError
  | OperationalError
  | ProgrammingError
  | IntegrityError (msg : string).

(** [except Exception] catches everything here but [KeyboardInterrupt]. *)
Definition is_Exception (e : exn) : bool :=
  match e with
  | KeyboardInterrupt => false
  | _ => true
  end.

Definition exn_message (e : exn) : string :=
  match e with
  | KeyboardInterrupt => ""
  | EOFError => "EOF when reading a line"
  | ValueError => ""
  | KeyError key => "'" +:+ key +:+ "'"
  | IndexError => "No item with that key"
  | AttributeError => "'NoneType' object has no attribute 'cursor'"
  | OperationalError => "unable to open database file"
  | ProgrammingError => "Cannot operate on a closed database."
  | IntegrityError msg => msg
  end.

(** The result of evaluating an expression: a value or an exception. *)
Inductive result (A : Type) :=
  | Ok (a : A)
  | Raise (e : exn).
Arguments Ok {A} a.
Arguments Raise {A} e.

#[global] Instance result_ret : MRet result := λ A a, Ok a.
#[global] Instance result_bind : MBind result := λ A B f r,
  match r with
  | Ok a => f a
  | Raise e => Raise e
  end.
#[global] Instance result_fmap : FMap result := λ A B f r,
  match r with
  | Ok a => Ok (f a)
  | Raise e => Raise e
  end.

(** ** Ingestion *)

(** A record as [csv.DictReader] yields it: a dict from the names of the
    header to the fields of the line; a field the line is too short for is
    [None]. *)
Definition csv_row : Type := gmap string (option string).

(** [row[name]] *)
Definition field (row : csv_row) (name : string) : result (option string) :=
  match row !! name with
  | Some v => Ok v
  | None => Raise (KeyError name)
  end.

(** The key SQLite gives a row inserted with a NULL key: one more than the
    largest key of the table, 1 in an empty table. *)
Definition fresh_rowid {A} (t : gmap Z A) : Z :=
  match last (scan t) with
  | Some kv => kv.1 + 1
  | None => 1
  end.

(** The value bound to an [INTEGER PRIMARY KEY]: NULL asks for a fresh
    key, the text of an integer is that key, any other text is refused. *)
Definition primary_key {A} (v : option string) (t : gmap Z A) : result Z :=
  match v with
  | None => Ok (fresh_rowid t)
  | Some s =>
      match parse_int s with
      | Some k => Ok k
      | None => Raise (IntegrityError "datatype mismatch")
      end
  end.

(** A [NOT NULL] column without default. *)
Definition not_null (column : string) (v : option string) : result string :=
  match v with
  | Some s => Ok s
  | None => Raise (IntegrityError ("NOT NULL constraint failed: " +:+ column))
  end.

(** [INSERT OR REPLACE]: the row takes the place of the row with its key,
    if there is one. *)
Definition insert_or_replace {A} (key : option string) (payload : result A)
    (t : gmap Z A) : result (gmap Z A) :=
  k ← primary_key key t;
  v ← payload;
  mret (<[k := v]> t).

Definition insert_resident (row : csv_row) (t : gmap Z resident)
  : result (gmap Z resident) :=
  id ← field row "resident_id";
  fn ← field row "first_name";
  ln ← field row "last_name";
  w ← field row "ward";
  em ← field row "email";
  ph ← field row "phone";
  insert_or_replace id
    (fn ← not_null "residents.first_name" fn;
     ln ← not_null "residents.last_name" ln;
     w ← not_null "residents.ward" w;
     mret (Resident fn ln (numeric_affinity w) em ph))
    t.

Definition insert_category (row : csv_row) (t : gmap Z service_category)
  : result (gmap Z service_category) :=
  id ← field row "category_id";
  name ← field row "category_name";
  insert_or_replace id
    (name ← not_null "service_categories.category_name" name;
     mret (ServiceCategory name))
    t.

Definition insert_complaint (row : csv_row) (t : gmap Z complaint)
  : result (gmap Z complaint) :=
  id ← field row "complaint_id";
  rid ← field row "resident_id";
  cat ← field row "category_id";
  ti ← field row "title";
  de ← field row "description";
  sd ← field row "submission_date";
  insert_or_replace id
    (rid ← not_null "complaints.resident_id" rid;
     cat ← not_null "complaints.category_id" cat;
     ti ← not_null "complaints.title" ti;
     sd ← not_null "complaints.submission_date" sd;
     mret (Complaint (numeric_affinity rid) (numeric_affinity cat) ti de
             (numeric_affinity sd)))
    t.

Definition insert_status_log (row : csv_row) (t : gmap Z status_log)
  : result (gmap Z status_log) :=
  id ← field row "log_id";
  cid ← field row "complaint_id";
  st ← field row "status";
  sd ← field row "status_date";
  insert_or_replace id
    (cid ← not_null "status_logs.complaint_id" cid;
     st ← not_null "status_logs.status" st;
     sd ← not_null "status_logs.status_date" sd;
     mret (StatusLog (numeric_affinity cid) st (numeric_affinity sd)))
    t.

(** [for row in reader: cursor.execute(INSERT OR REPLACE ...)]: the table
    after the rows that went in, and the exception that stopped the loop,
    if any. *)
Fixpoint insert_rows {A} (ins : csv_row → gmap Z A → result (gmap Z A))
    (rows : list csv_row) (t : gmap Z A) : gmap Z A * option exn :=
  match rows with
  | [] => (t, None)
  | row :: rest =>
      match ins row t with
      | Ok t' => insert_rows ins rest t'
      | Raise e => (t, Some e)
      end
  end.

(** The files of the working directory that hold records, by path. *)
Definition file_system : Type := gmap string (list csv_row).

(** [if name in csv_files and os.path.exists(csv_files[name])]: the
    records to read for [name], none when the source is skipped. *)
Definition source (csv_files : gmap string string) (fs : file_system)
    (name : string) : list csv_row :=
  match csv_files !! name with
  | Some path => default [] (fs !! path)
  | None => []
  end.

(** The four loops of [load_csv_data], up to the first exception: the
    tables they leave and that exception, if any. *)
Definition load_records (csv_files : gmap string string) (fs : file_system)
    (db : database) : database * option exn :=
  let '(r, e) := insert_rows insert_resident (source csv_files fs "residents")
                   (residents db) in
  let db := Database r (service_categories db) (complaints db) (status_logs db) in
  if e is Some _ then (db, e) else
  let '(sc, e) := insert_rows insert_category (source csv_files fs "categories")
                    (service_categories db) in
  let db := Database (residents db) sc (complaints db) (status_logs db) in
  if e is Some _ then (db, e) else
  let '(c, e) := insert_rows insert_complaint (source csv_files fs "complaints")
                   (complaints db) in
  let db := Database (residents db) (service_categories db) c (status_logs db) in
  if e is Some _ then (db, e) else
  let '(l, e) := insert_rows insert_status_log (source csv_files fs "status_logs")
                   (status_logs db) in
  (Database (residents db) (service_categories db) (complaints db) l, e).

(** ** Text of the console *)

Definition nl : string := String (ascii_of_nat 10) EmptyString.

(** [s * n] *)
Fixpoint repeat_string (s : string) (n : nat) : string :=
  match n with
  | O => EmptyString
  | S n => s +:+ repeat_string s n
  end.

(** [f"{s:15}"] for a text [s]: left-justified in 15 characters, longer
    texts unchanged. *)
Definition pad15 (s : string) : string :=
  s +:+ repeat_string " " (15 - String.length s).

(** [str(float)] of a real with two decimals. *)
Definition str_real2 (h : Z) : string :=
  let a := Z.abs h in
  let frac := a `mod` 100 in
  (if decide (h < 0) then "-" else "")
  +:+ pretty (a `div` 100) +:+ "."
  +:+ (if decide (frac `mod` 10 = 0) then pretty (frac `div` 10)
       else pretty (frac `div` 10) +:+ pretty (frac `mod` 10)).

(** [str(v)] of a value of a result row. *)
Definition str_cell (c : cell) : string :=
  match c with
  | CNull => "None"
  | CInt z => pretty z
  | CReal2 h => str_real2 h
  | CText s => s
  end.

Definition lower (c : ascii) : ascii :=
  let n := Ascii.N_of_ascii c in
  if bool_decide (65 ≤ n ≤ 90)%N then Ascii.ascii_of_N (n + 32) else c.

Fixpoint lower_string (s : string) : string :=
  match s with
  | EmptyString => EmptyString
  | String c r => String (lower c) (lower_string r)
  end.

(** [row[name]]: the value of the first column with that name, letter
    case aside; [IndexError] when there is none. *)
Fixpoint row_get (r : row) (name : string) : result cell :=
  match r with
  | [] => Raise IndexError
  | (col, v) :: rest =>
      if decide (lower_string col = lower_string name) then Ok v
      else row_get rest name
  end.

(** [row.keys()] *)
Definition row_keys (r : row) : list string := r.*1.

Definition is_space (c : ascii) : bool :=
  let n := Ascii.N_of_ascii c in
  bool_decide (9 ≤ n ≤ 13 ∨ 28 ≤ n ≤ 32)%N.

Fixpoint lstrip (s : string) : string :=
  match s with
  | EmptyString => EmptyString
  | String c r => if is_space c then lstrip r else s
  end.

Fixpoint rstrip (s : string) : string :=
  match s with
  | EmptyString => EmptyString
  | String c r =>
      match rstrip r with
      | EmptyString => if is_space c then EmptyString else String c EmptyString
      | r' => String c r'
      end
  end.

(** [s.strip()] *)
Definition strip (s : string) : string := rstrip (lstrip s).

(** ** The world of a run *)

(** What arrives on standard input: a line, or Ctrl-C. *)
Inductive event :=
  | Line (s : string)
  | Interrupt.

(** What is written to standard output: a line by [print], or the prompt
    of an [input]. *)
Inductive output :=
  | Printed (s : string)
  | Prompted (s : string).

(** [self.conn]: [None], an open connection, or a closed one. *)
Inductive session :=
  | NoSession
  | Held
  | Released.

(** The SELECT statements of the program, with their parameter. *)
Inductive statement :=
  | SelectActive
  | SelectCategories
  | SelectByCategory (category_id : string)
  | SelectByWard (ward_no : string)
  | SelectResidentHistory (resident_id : string)
  | SelectResidentName (resident_id : string)
  | SelectResolutionStatistics
  | SelectOverdue
  | SelectByStatus (st : string)
  | SelectTopCategories
  | SelectWardPerformance
  | SelectComplaintDetail (complaint_id : string)
  | SelectTimeline (complaint_id : string).

Definition eval_statement (q : statement) (age_ms : clock) (db : database) : list row :=
  match q with
  | SelectActive => sql_1_active_complaints db
  | SelectCategories => sql_2_categories db
  | SelectByCategory p => sql_2_complaints_by_category db p
  | SelectByWard p => sql_3_complaints_by_ward db p
  | SelectResidentHistory p => sql_4_resident_history db p
  | SelectResidentName p => sql_4_resident_name db p
  | SelectResolutionStatistics => sql_5_resolution_statistics db
  | SelectOverdue => sql_6_overdue_complaints age_ms db
  | SelectByStatus p => sql_7_complaints_by_status db p
  | SelectTopCategories => sql_8_top_complaint_categories db
  | SelectWardPerformance => sql_9_ward_performance db
  | SelectComplaintDetail p => sql_10_detail db p
  | SelectTimeline p => sql_10_timeline db p
  end.

Record world := World {
  reachable : bool;            (** can the database file be opened *)
  files : file_system;         (** the files of the working directory *)
  now : clock;                 (** the clock of the engine *)
  file_db : database;          (** the committed content of the database file *)
  conn : session;              (** [self.db.conn] *)
  tables : database;           (** the tables as the session sees them *)
  stdin : list event;
  stdout : list output;
  executed : list statement    (** the SELECT statements run so far *) }.

Definition set_conn (c : session) (w : world) : world :=
  World (reachable w) (files w) (now w) (file_db w) c (tables w)
        (stdin w) (stdout w) (executed w).
Definition set_tables (db : database) (w : world) : world :=
  World (reachable w) (files w) (now w) (file_db w) (conn w) db
        (stdin w) (stdout w) (executed w).
Definition set_file_db (db : database) (w : world) : world :=
  World (reachable w) (files w) (now w) db (conn w) (tables w)
        (stdin w) (stdout w) (executed w).
Definition set_stdin (i : list event) (w : world) : world :=
  World (reachable w) (files w) (now w) (file_db w) (conn w) (tables w)
        i (stdout w) (executed w).
Definition write (o : output) (w : world) : world :=
  World (reachable w) (files w) (now w) (file_db w) (conn w) (tables w)
        (stdin w) (stdout w ++ [o]) (executed w).
Definition log_statement (q : statement) (w : world) : world :=
  World (reachable w) (files w) (now w) (file_db w) (conn w) (tables w)
        (stdin w) (stdout w) (executed w ++ [q]).

(** ** Computations on the world *)

(** How a computation ends: with a value, with an exception, or
    [Unfinished] when the menu loop of the model was given too few steps.
    [Unfinished] is not an exception and no handler sees it. *)
Inductive outcome (A : Type) :=
  | Returns (a : A)
  | Raises (e : exn)
  | Unfinished.
Arguments Returns {A} a.
Arguments Raises {A} e.
Arguments Unfinished {A}.

Definition M (A : Type) : Type := world → outcome A * world.

#[global] Instance M_ret : MRet M := λ A a w, (Returns a, w).
#[global] Instance M_bind : MBind M := λ A B f m w,
  match m w with
  | (Returns a, w') => f a w'
  | (Raises e, w') => (Raises e, w')
  | (Unfinished, w') => (Unfinished, w')
  end.

Definition lift {A} (r : result A) : M A := λ w,
  match r with
  | Ok a => (Returns a, w)
  | Raise e => (Raises e, w)
  end.

(** [print(s)] *)
Definition print (s : string) : M unit := λ w, (Returns tt, write (Printed s) w).

(** [input(prompt)] *)
Definition input (prompt : string) : M string := λ w,
  let w := write (Prompted prompt) w in
  match stdin w with
  | [] => (Raises EOFError, w)
  | Line s :: rest => (Returns s, set_stdin rest w)
  | Interrupt :: rest => (Raises KeyboardInterrupt, set_stdin rest w)
  end.

(** [try: body except ...: handler]; [handler e] is [None] when no clause
    matches [e]. *)
Definition try_except {A} (body : M A) (handler : exn → option (M A)) : M A := λ w,
  match body w with
  | (Raises e, w') =>
      match handler e with
      | Some h => h w'
      | None => (Raises e, w')
      end
  | other => other
  end.

(** [try: body finally: cleanup] *)
Definition try_finally {A} (body : M A) (cleanup : M unit) : M A := λ w,
  match body w with
  | (Unfinished, w') => (Unfinished, w')
  | (r, w') =>
      match cleanup w' with
      | (Returns _, w'') => (r, w'')
      | (Raises e, w'') => (Raises e, w'')
      | (Unfinished, w'') => (Unfinished, w'')
      end
  end.

(** [for x in l: body(x)] *)
Fixpoint for_each {A} (l : list A) (body : A → M unit) : M unit :=
  match l with
  | [] => mret tt
  | x :: rest => body x;; for_each rest body
  end.

(** [except ValueError:] *)
Definition except_ValueError (h : M unit) (e : exn) : option (M unit) :=
  match e with
  | ValueError => Some h
  | _ => None
  end.

(** ** [class ComplaintsDatabase] *)

Module ComplaintsDatabase.

(** [sqlite3.connect(self.db_name)]: the session starts from the
    committed content of the file. *)
Definition connect : M unit := λ w,
  if reachable w then (Returns tt, set_tables (file_db w) (set_conn Held w))
  else (Raises OperationalError, w).

(** [if self.conn: self.conn.close()]; closing a closed connection does
    nothing. *)
Definition disconnect : M unit := λ w,
  match conn w with
  | NoSession => (Returns tt, w)
  | Held => (Returns tt, set_conn Released w)
  | Released => (Returns tt, w)
  end.

(** [self.conn.cursor()] *)
Definition cursor : M unit := λ w,
  match conn w with
  | NoSession => (Raises AttributeError, w)
  | Held => (Returns tt, w)
  | Released => (Raises ProgrammingError, w)
  end.

(** [self.conn.commit()] *)
Definition commit : M unit := λ w, (Returns tt, set_file_db (tables w) w).

(** The four [CREATE TABLE IF NOT EXISTS] leave the rows as they are. *)
Definition create_tables : M unit := cursor;; commit.

Definition load_csv_data (csv_files : gmap string string) : M unit :=
  cursor;;
  ((λ w, let '(db, e) := load_records csv_files (files w) (tables w) in
         match e with
         | Some e => (Raises e, set_tables db w)
         | None => (Returns tt, set_tables db w)
         end) : M unit);;
  commit.

Definition execute_query (q : statement) : M (list row) :=
  cursor;;
  ((λ w, (Returns (eval_statement q (now w) (tables w)), log_statement q w))
     : M (list row)).

Definition banner : string := repeat_string "=" 60.

Definition print_row (columns : list string) (r : row) : M unit :=
  cells ← lift (mapM (λ col, str_cell <$> row_get r col) columns);
  print (String.concat " | " (pad15 <$> cells)).

Definition print_results (results : list row) (title : string) : M unit :=
  print (nl +:+ banner);;
  print title;;
  print banner;;
  match results with
  | [] => print "No results found."
  | first :: _ =>
      let columns := row_keys first in
      let header := String.concat " | " (pad15 <$> columns) in
      print header;;
      print (repeat_string "-" (String.length header));;
      for_each results (print_row columns);;
      print (nl +:+ "Total records: " +:+ pretty (length results))
  end.

End ComplaintsDatabase.

(** ** [class ComplaintsCLI] *)

Module ComplaintsCLI.
Import ComplaintsDatabase.

Definition csv_files : gmap string string :=
  {[ "residents" := "residents.csv";
     "categories" := "service_categories.csv";
     "complaints" := "complaints.csv";
     "status_logs" := "status_logs.csv" ]}.

Definition initialize_database : M unit :=
  print "Initializing database...";;
  connect;;
  create_tables;;
  load_csv_data csv_files;;
  print "Database initialized successfully!".

Definition show_menu : M unit :=
  print (nl +:+ banner);;
  print "MUNICIPAL COMPLAINTS DATABASE - QUERY MENU";;
  print banner;;
  print "1.  View all active complaints";;
  print "2.  View complaints by category";;
  print "3.  View complaints by ward";;
  print "4.  View resident complaint history";;
  print "5.  View complaint resolution statistics";;
  print "6.  View overdue complaints (submitted over 30 days ago)";;
  print "7.  View complaints by status";;
  print "8.  View top complaint categories";;
  print "9.  View ward performance summary";;
  print "10. View complaint timeline for specific complaint";;
  print "0.  Exit";;
  print banner.

Definition query_1_active_complaints : M unit :=
  results ← execute_query SelectActive;
  print_results results "Active Complaints".

(** [next((cat['category_name'] for cat in categories
          if str(cat['category_id']) == category_id), "Unknown")] *)
Fixpoint category_name_of (categories : list row) (category_id : string)
  : result string :=
  match categories with
  | [] => Ok "Unknown"
  | cat :: rest =>
      id ← row_get cat "category_id";
      if decide (str_cell id = category_id)
      then str_cell <$> row_get cat "category_name"
      else category_name_of rest category_id
  end.

Definition query_2_complaints_by_category : M unit :=
  print (nl +:+ "Available categories:");;
  categories ← execute_query SelectCategories;
  for_each categories
    (λ cat, id ← lift (row_get cat "category_id");
            name ← lift (row_get cat "category_name");
            print (str_cell id +:+ ". " +:+ str_cell name));;
  try_except
    (category_id ← input (nl +:+ "Enter category ID: ");
     results ← execute_query (SelectByCategory category_id);
     cat_name ← lift (category_name_of categories category_id);
     print_results results ("Complaints for " +:+ cat_name))
    (except_ValueError (print "Invalid category ID entered.")).

Definition query_3_complaints_by_ward : M unit :=
  try_except
    (ward ← input "Enter ward number: ";
     results ← execute_query (SelectByWard ward);
     print_results results ("Complaints for Ward " +:+ ward))
    (except_ValueError (print "Invalid ward number entered.")).

Definition query_4_resident_history : M unit :=
  try_except
    (resident_id ← input "Enter resident ID: ";
     results ← execute_query (SelectResidentHistory resident_id);
     name_result ← execute_query (SelectResidentName resident_id);
     resident_name ←
       match name_result with
       | first :: _ => lift (str_cell <$> row_get first "name")
       | [] => mret ("Resident " +:+ resident_id)
       end;
     print_results results ("Complaint History for " +:+ resident_name))
    (except_ValueError (print "Invalid resident ID entered.")).

Definition query_5_resolution_statistics : M unit :=
  results ← execute_query SelectResolutionStatistics;
  print_results results "Complaint Resolution Statistics by Category".

Definition query_6_overdue_complaints : M unit :=
  results ← execute_query SelectOverdue;
  print_results results "Overdue Complaints (Over 30 Days)".

Definition query_7_complaints_by_status : M unit :=
  print (nl +:+ "Available statuses: Submitted, In Progress, Resolved");;
  st ← input "Enter status: ";
  let st := strip st in
  results ← execute_query (SelectByStatus st);
  print_results results ("Complaints with Status: " +:+ st).

Definition query_8_top_complaint_categories : M unit :=
  results ← execute_query SelectTopCategories;
  print_results results "Top Complaint Categories".

Definition query_9_ward_performance : M unit :=
  results ← execute_query SelectWardPerformance;
  print_results results "Ward Performance Summary".

(** [print(f"label: {detail[column]}")] *)
Definition print_detail (label : string) (detail : row) (column : string) : M unit :=
  v ← lift (row_get detail column);
  print (label +:+ ": " +:+ str_cell v).

Definition query_10_complaint_timeline : M unit :=
  try_except
    (complaint_id ← input "Enter complaint ID: ";
     details ← execute_query (SelectComplaintDetail complaint_id);
     match details with
     | [] => print ("No complaint found with ID " +:+ complaint_id)
     | detail :: _ =>
         print (nl +:+ banner);;
         print "COMPLAINT DETAILS";;
         print banner;;
         print_detail "ID" detail "complaint_id";;
         print_detail "Resident" detail "resident_name";;
         print_detail "Category" detail "category_name";;
         print_detail "Title" detail "title";;
         print_detail "Description" detail "description";;
         print_detail "Submitted" detail "submission_date";;
         timeline ← execute_query (SelectTimeline complaint_id);
         print_results timeline ("Status Timeline for Complaint " +:+ complaint_id)
     end)
    (except_ValueError (print "Invalid complaint ID entered.")).

(** The branches of the menu for a choice other than ['0']. *)
Definition dispatch (choice : string) : M unit :=
  if decide (choice = "1") then query_1_active_complaints
  else if decide (choice = "2") then query_2_complaints_by_category
  else if decide (choice = "3") then query_3_complaints_by_ward
  else if decide (choice = "4") then query_4_resident_history
  else if decide (choice = "5") then query_5_resolution_statistics
  else if decide (choice = "6") then query_6_overdue_complaints
  else if decide (choice = "7") then query_7_complaints_by_status
  else if decide (choice = "8") then query_8_top_complaint_categories
  else if decide (choice = "9") then query_9_ward_performance
  else if decide (choice = "10") then query_10_complaint_timeline
  else print "Invalid choice. Please enter a number between 0-10.".

(** [while True: ...], for at most [steps] turns. *)
Fixpoint menu_loop (steps : nat) : M unit :=
  match steps with
  | O => λ w, (Unfinished, w)
  | S steps =>
      show_menu;;
      choice ← input (nl +:+ "Enter your choice (0-10): ");
      let choice := strip choice in
      if decide (choice = "0") then print "Goodbye!"
      else
        dispatch choice;;
        input (nl +:+ "Press Enter to continue...");;
        menu_loop steps
  end.

(** The two [except] clauses of [run]. *)
Definition run_handler (e : exn) : option (M unit) :=
  match e with
  | KeyboardInterrupt => Some (print (nl +:+ nl +:+ "Exiting..."))
  | _ =>
      if is_Exception e
      then Some (print ("An error occurred: " +:+ exn_message e))
      else None
  end.

(** [run], with a bound on the turns of the loop. *)
Definition run_for (steps : nat) : M unit :=
  print "Welcome to the Municipal Complaints Database CLI!";;
  try_finally
    (try_except (initialize_database;; menu_loop steps) run_handler)
    disconnect.

(** [run]: every turn of the loop reads a choice, so one turn more than
    there are events on standard input is never used up. *)
Definition run : M unit := λ w, run_for (S (length (stdin w))) w.

End ComplaintsCLI.

(** ** Vocabulary of the statements about the reports *)

(** The status events of the complaint with key [cid], in log order. *)
Definition events_of (db : database) (cid : Z) : list status_log :=
  filter (λ e, l_complaint_id e = VInt cid) (snd <$> scan (status_logs db)).

(** [e] has the maximum date among the events [l]. *)
Definition latest_in (l : list status_log) (e : status_log) : Prop :=
  Forall (λ e', value_le (status_date e') (status_date e)) l.

(** The database without the complaint [cid]. *)
Definition delete_complaint (cid : Z) (db : database) : database :=
  {| residents := residents db;
     service_categories := service_categories db;
     complaints := delete cid (complaints db);
     status_logs := status_logs db |}.

(** The row a reference points to, when it is an integer and such a row
    exists. *)
Definition deref {A} (t : gmap Z A) (v : value) : option (Z * A) :=
  match v with
  | VInt k => pair k <$> t !! k
  | VText _ => None
  end.

(** Referential integrity of the complaints: the resident and the category
    of every complaint exist. *)
Definition referential_integrity (db : database) : Prop :=
  map_Forall (λ _ c, is_Some (deref (residents db) (c_resident_id c))
                     ∧ is_Some (deref (service_categories db) (c_category_id c)))
             (complaints db).

#[global] Instance referential_integrity_dec db : Decision (referential_integrity db).
Proof. unfold referential_integrity. apply _. Defined.

(** The complaint [cid] has no row in the listings built on the latest
    status (reports 1, 2, 3, 4, 6 and 7). *)
Definition absent_from_listings (age_ms : clock) (db : database) (cid : Z) : Prop :=
  (∀ j, j ∈ active_complaints db → (j_c j).1 ≠ cid)
  ∧ (∀ p j, j ∈ complaints_by_category db p → (j_c j).1 ≠ cid)
  ∧ (∀ p j, j ∈ complaints_by_ward db p → (j_c j).1 ≠ cid)
  ∧ (∀ p j, j ∈ resident_history db p → j.1.1.1 ≠ cid)
  ∧ (∀ j, j ∈ overdue_complaints age_ms db → (j_c j).1 ≠ cid)
  ∧ (∀ p j, j ∈ complaints_by_status db p → (j_c j).1 ≠ cid).

(** The complaint [cid] contributes to none of the reports 1-7 and 9:
    each of them is what it would be without the complaint. *)
Definition not_counted (age_ms : clock) (db : database) (cid : Z) : Prop :=
  let db' := delete_complaint cid db in
  sql_1_active_complaints db' = sql_1_active_complaints db
  ∧ (∀ p, sql_2_complaints_by_category db' p = sql_2_complaints_by_category db p)
  ∧ (∀ p, sql_3_complaints_by_ward db' p = sql_3_complaints_by_ward db p)
  ∧ (∀ p, sql_4_resident_history db' p = sql_4_resident_history db p)
  ∧ sql_5_resolution_statistics db' = sql_5_resolution_statistics db
  ∧ sql_6_overdue_complaints age_ms db' = sql_6_overdue_complaints age_ms db
  ∧ (∀ p, sql_7_complaints_by_status db' p = sql_7_complaints_by_status db p)
  ∧ sql_9_ward_performance db' = sql_9_ward_performance db.

(** Every latest event of the complaint [cid] has the status [s], and
    there is a latest event: the complaint has events, and each of them whose
    date is the maximum carries [s]. *)
Definition latest_event_status (db : database) (cid : Z) (s : string) : Prop :=
  events_of db cid ≠ []
  ∧ Forall (λ e, latest_in (events_of db cid) e → status e = s) (events_of db cid).

#[global] Instance latest_in_dec l e : Decision (latest_in l e).
Proof. unfold latest_in. apply _. Defined.

#[global] Instance latest_event_status_dec db cid s :
  Decision (latest_event_status db cid s).
Proof. unfold latest_event_status. apply _. Defined.


(** [h] hundredths is the quotient [n / d] rounded to two decimals, halves
    up: [h/100 - 1/200 ≤ n/d < h/100 + 1/200], for a positive [d]. *)
Definition rounded_to_2_decimals (n d h : Z) : Prop :=
  2 * d * h ≤ 200 * n + d < 2 * d * (h + 1).

(** The invariants of a row of statistics. *)
Definition stats_consistent (s : stats) : Prop :=
  0 < total_complaints s
  ∧ resolved s + in_progress s + submitted s ≤ total_complaints s
  ∧ ∃ h, resolution_rate s = CReal2 h
         ∧ rounded_to_2_decimals (resolved s * 100) (total_complaints s) h.

(** ** Vocabulary of the statements about ingestion *)

(** The record has a value in its identity column (or no such column at
    all, which stops the ingestion). *)
Definition keyed (id_column : string) (row : csv_row) : Prop :=
  row !! id_column ≠ Some None.

#[global] Instance keyed_dec id_column row : Decision (keyed id_column row).
Proof. unfold keyed. apply _. Defined.

(** Every record of the sources that are read has a value in the identity
    column of its table. *)
Definition sources_keyed (csv_files : gmap string string) (fs : file_system) : Prop :=
  Forall (keyed "resident_id") (source csv_files fs "residents")
  ∧ Forall (keyed "category_id") (source csv_files fs "categories")
  ∧ Forall (keyed "complaint_id") (source csv_files fs "complaints")
  ∧ Forall (keyed "log_id") (source csv_files fs "status_logs").

#[global] Instance sources_keyed_dec csv_files fs : Decision (sources_keyed csv_files fs).
Proof. unfold sources_keyed. apply _. Defined.

(** Writing a row under its key. *)
Definition put {A} (t : gmap Z A) (kv : Z * A) : gmap Z A := <[kv.1 := kv.2]> t.

(** The rows a conversion yields before its first failure, and that
    failure. *)
Fixpoint converted {A} (conv : csv_row → result (Z * A)) (rows : list csv_row)
  : list (Z * A) * option exn :=
  match rows with
  | [] => ([], None)
  | row :: rest =>
      match conv row with
      | Ok kv => (kv :: (converted conv rest).1, (converted conv rest).2)
      | Raise e => ([], Some e)
      end
  end.

(** What a complaint contributes to the full join: one row when its
    resident, its category and a latest status exist, nothing otherwise. *)
Definition contribution (db : database) (c : Z * complaint) : list joined :=
  match deref (residents db) (c_resident_id c.2),
        deref (service_categories db) (c_category_id c.2),
        head (join_latest db c.1) with
  | Some r, Some sc, Some sl => [Joined c r sc sl]
  | _, _, _ => []
  end.

(** The key and the row an [INSERT OR REPLACE] writes when the identity is
    the text [id]. *)
Definition keyed_row {A} (id : option string) (payload : result A) : result (Z * A) :=
  match id with
  | Some s =>
      match parse_int s with
      | Some k => pair k <$> payload
      | None => Raise (IntegrityError "datatype mismatch")
      end
  | None => Raise (IntegrityError "datatype mismatch")
  end.

Definition resident_of_record (row : csv_row) : result (Z * resident) :=
  id ← field row "resident_id";
  fn ← field row "first_name";
  ln ← field row "last_name";
  w ← field row "ward";
  em ← field row "email";
  ph ← field row "phone";
  keyed_row id
    (fn ← not_null "residents.first_name" fn;
     ln ← not_null "residents.last_name" ln;
     w ← not_null "residents.ward" w;
     mret (Resident fn ln (numeric_affinity w) em ph)).

Definition category_of_record (row : csv_row) : result (Z * service_category) :=
  id ← field row "category_id";
  name ← field row "category_name";
  keyed_row id
    (name ← not_null "service_categories.category_name" name;
     mret (ServiceCategory name)).

Definition complaint_of_record (row : csv_row) : result (Z * complaint) :=
  id ← field row "complaint_id";
  rid ← field row "resident_id";
  cat ← field row "category_id";
  ti ← field row "title";
  de ← field row "description";
  sd ← field row "submission_date";
  keyed_row id
    (rid ← not_null "complaints.resident_id" rid;
     cat ← not_null "complaints.category_id" cat;
     ti ← not_null "complaints.title" ti;
     sd ← not_null "complaints.submission_date" sd;
     mret (Complaint (numeric_affinity rid) (numeric_affinity cat) ti de
             (numeric_affinity sd))).

Definition status_log_of_record (row : csv_row) : result (Z * status_log) :=
  id ← field row "log_id";
  cid ← field row "complaint_id";
  st ← field row "status";
  sd ← field row "status_date";
  keyed_row id
    (cid ← not_null "status_logs.complaint_id" cid;
     st ← not_null "status_logs.status" st;
     sd ← not_null "status_logs.status_date" sd;
     mret (StatusLog (numeric_affinity cid) st (numeric_affinity sd))).

(** ** Vocabulary of the statements about the console *)

(** The world after the outputs [os] were written, in order. *)
Definition writes (os : list output) (w : world) : world :=
  foldl (λ w o, write o w) w os.

(** The line [print_results] prints for a row: its values, each padded,
    separated by [" | "]. *)
Definition row_line (r : row) : string :=
  String.concat " | " ((pad15 ∘ str_cell ∘ snd) <$> r).

(** The header [print_results] prints for the columns of a row. *)
Definition header_line (r : row) : string :=
  String.concat " | " (pad15 <$> row_keys r).

(** The rows have the columns of [first], and these are distinct, letter
    case aside. *)
Definition uniform (first : row) (results : list row) : Prop :=
  NoDup (lower_string <$> row_keys first)
  ∧ Forall (λ r, row_keys r = row_keys first) results.

#[global] Instance uniform_dec first results : Decision (uniform first results).
Proof. unfold uniform. apply _. Defined.

(** A computation that finishes and puts nothing back on standard input. *)
Definition tame {A} (m : M A) : Prop :=
  ∀ w, (m w).1 ≠ Unfinished ∧ (length (stdin (m w).2) ≤ length (stdin w))%nat.

(** What [print_results] writes for a result sequence and a title. *)
Definition table_output (results : list row) (title : string) : list output :=
  [Printed (nl +:+ ComplaintsDatabase.banner); Printed title;
   Printed ComplaintsDatabase.banner]
  ++ match results with
     | [] => [Printed "No results found."]
     | first :: _ =>
         [Printed (header_line first);
          Printed (repeat_string "-" (String.length (header_line first)))]
         ++ ((Printed ∘ row_line) <$> results)
         ++ [Printed (nl +:+ "Total records: " +:+ pretty (length results))]
     end.

(** The rows of a result sequence have the columns of the first one. *)
Definition uniform_results (results : list row) : Prop :=
  match results with
  | [] => True
  | first :: _ => uniform first results
  end.


(** ** Example data *)

(** Scenario A of the specification: one complaint, submitted and then
    resolved. *)
Definition scenario_A : database :=
  {| residents := {[ 1 := Resident "A" "B" (VInt 3) None None ]};
     service_categories := {[ 1 := ServiceCategory "Pothole" ]};
     complaints :=
       {[ 1 := Complaint (VInt 1) (VInt 1) "Hole" (Some "desc") (VText "2024-01-01") ]};
     status_logs :=
       {[ 1 := StatusLog (VInt 1) "Submitted" (VText "2024-01-01");
          2 := StatusLog (VInt 1) "Resolved" (VText "2024-01-10") ]} |}.

(** Scenario B: the same complaint; the last event of the log is
    "In Progress", dated after a "Resolved" event that comes before it in
    the log. *)
Definition scenario_B : database :=
  {| residents := residents scenario_A;
     service_categories := service_categories scenario_A;
     complaints := complaints scenario_A;
     status_logs :=
       {[ 1 := StatusLog (VInt 1) "Submitted" (VText "2024-01-01");
          2 := StatusLog (VInt 1) "Resolved" (VText "2024-01-05");
          3 := StatusLog (VInt 1) "In Progress" (VText "2024-01-10") ]} |}.

(** Scenario B with the "In Progress" event stored before the "Resolved"
    one. *)
Definition scenario_B' : database :=
  {| residents := residents scenario_A;
     service_categories := service_categories scenario_A;
     complaints := complaints scenario_A;
     status_logs :=
       {[ 1 := StatusLog (VInt 1) "In Progress" (VText "2024-01-10");
          2 := StatusLog (VInt 1) "Submitted" (VText "2024-01-01");
          3 := StatusLog (VInt 1) "Resolved" (VText "2024-01-05") ]} |}.

(** Scenario A with a second complaint that has no status event. *)
Definition scenario_no_event : database :=
  {| residents := residents scenario_A;
     service_categories := service_categories scenario_A;
     complaints :=
       <[ 2 := Complaint (VInt 1) (VInt 1) "Lamp" None (VText "2024-02-01") ]>
         (complaints scenario_A);
     status_logs := status_logs scenario_A |}.

(** A clock on which nothing has a date. *)
Definition no_clock : clock := λ _, None.

(** A record of a file: the fields of a full line. *)
Definition record (l : list (string * string)) : csv_row :=
  list_to_map ((λ kv : string * string, (kv.1, Some kv.2)) <$> l).

(** The files of scenario B. *)
Definition files_B : file_system :=
  {[ "residents.csv" :=
       [record [("resident_id", "1"); ("first_name", "A"); ("last_name", "B");
                ("ward", "3"); ("email", ""); ("phone", "")]];
     "service_categories.csv" :=
       [record [("category_id", "1"); ("category_name", "Pothole")]];
     "complaints.csv" :=
       [record [("complaint_id", "1"); ("resident_id", "1"); ("category_id", "1");
                ("title", "Hole"); ("description", "desc");
                ("submission_date", "2024-01-01")]];
     "status_logs.csv" :=
       [record [("log_id", "1"); ("complaint_id", "1"); ("status", "Submitted");
                ("status_date", "2024-01-01")];
        record [("log_id", "2"); ("complaint_id", "1"); ("status", "Resolved");
                ("status_date", "2024-01-05")];
        record [("log_id", "3"); ("complaint_id", "1"); ("status", "In Progress");
                ("status_date", "2024-01-10")]] ]}.

(** A categories file whose header ends with [category_id] and whose only
    line, [Pothole], stops before it: the reader yields [None] for the
    identity. *)
Definition files_unkeyed : file_system :=
  {[ "service_categories.csv" :=
       [ {[ "category_name" := Some "Pothole"; "category_id" := None ]} ] ]}.

(** A world with a session held on the tables [db], the lines [lines]
    waiting on standard input, and nothing written or run yet. *)
Definition world_of (db : database) (lines : list string) : world :=
  {| reachable := true; files := ∅; now := no_clock; file_db := db;
     conn := Held; tables := db; stdin := Line <$> lines; stdout := [];
     executed := [] |}.

(** Scenario B with a second complaint, filed by a resident 9 that the
    residents table does not have. *)
Definition scenario_dangling : database :=
  {| residents := residents scenario_B;
     service_categories := service_categories scenario_B;
     complaints :=
       <[ 2 := Complaint (VInt 9) (VInt 1) "Lamp" None (VText "2024-02-01") ]>
         (complaints scenario_B);
     status_logs :=
       <[ 4 := StatusLog (VInt 2) "Submitted" (VText "2024-02-01") ]>
         (status_logs scenario_B) |}.

(** A fresh process in a directory with the files of scenario B. *)
Definition fresh_world (events : list event) : world :=
  {| reachable := true; files := files_B; now := no_clock;
     file_db := empty_database; conn := NoSession; tables := empty_database;
     stdin := events; stdout := []; executed := [] |}.

(** Two result rows, the second with a value longer than 15 characters. *)
Definition sample_rows : list row :=
  [ [("status", CText "Submitted"); ("status_date", CText "2024-01-01")];
    [("status", CText "Waiting for parts"); ("status_date", CText "2024-01-05")] ].

(** A categories file whose second record has a text that is no integer as
    identity. *)
Definition files_bad_id : file_system :=
  {[ "service_categories.csv" :=
       [record [("category_id", "1"); ("category_name", "Pothole")];
        record [("category_id", "x2"); ("category_name", "Lamp")];
        record [("category_id", "3"); ("category_name", "Noise")]] ]}.

(** Records of a residents file: a good one, one whose line stops after
    the identity, another good one. *)
Definition resident_record_1 : csv_row :=
  record [("resident_id", "1"); ("first_name", "A"); ("last_name", "B");
          ("ward", "3"); ("email", ""); ("phone", "")].
Definition resident_record_short : csv_row :=
  {[ "resident_id" := Some "2"; "first_name" := None; "last_name" := None;
     "ward" := None; "email" := None; "phone" := None ]}.
Definition resident_record_3 : csv_row :=
  record [("resident_id", "3"); ("first_name", "C"); ("last_name", "D");
          ("ward", "4"); ("email", ""); ("phone", "")].

Definition files_bad_resident : file_system :=
  {[ "residents.csv" :=
       [resident_record_1; resident_record_short; resident_record_3] ]}.

(** Two records of a categories file with the same identity, written
    [1] and [01]. *)
Definition category_record_old : csv_row :=
  record [("category_id", "1"); ("category_name", "Pothole")].
Definition category_record_new : csv_row :=
  record [("category_id", "01"); ("category_name", "Road damage")].

(** A clock on which every date is 30 days and 12 hours old. *)
Definition clock_30_days_and_a_half : clock := λ _, Some (30 * 86400000 + 43200000).

(** Three categories with one complaint each, filed by the resident of
    scenario A. *)
Definition scenario_thirds : database :=
  {| residents := residents scenario_A;
     service_categories :=
       {[ 1 := ServiceCategory "Pothole"; 2 := ServiceCategory "Lamp";
          3 := ServiceCategory "Noise" ]};
     complaints :=
       {[ 1 := Complaint (VInt 1) (VInt 1) "Hole" None (VText "2024-01-01");
          2 := Complaint (VInt 1) (VInt 2) "Dark" None (VText "2024-01-02");
          3 := Complaint (VInt 1) (VInt 3) "Loud" None (VText "2024-01-03") ]};
     status_logs :=
       {[ 1 := StatusLog (VInt 1) "Resolved" (VText "2024-01-05");
          2 := StatusLog (VInt 2) "Submitted" (VText "2024-01-02") ]} |}.

(** ** Vocabulary of the further statements *)

(** The source [name] is skipped: it has no entry in [csv_files], or its
    file does not exist. *)
Definition missing (csv_files : gmap string string) (fs : file_system)
    (name : string) : Prop :=
  match csv_files !! name with
  | Some path => fs !! path = None
  | None => True
  end.

#[global] Instance missing_dec csv_files fs name : Decision (missing csv_files fs name).
Proof. unfold missing. destruct (csv_files !! name); apply _. Defined.

(** The key of a converted record, when the conversion succeeds. *)
Definition record_key {A} (conv : csv_row → result (Z * A)) (row : csv_row) : option Z :=
  match conv row with
  | Ok kv => Some kv.1
  | Raise _ => None
  end.

(** Insert-or-replace over the records of a file that all carry an
    identity: a run that goes through leaves under each key the row of the
    last record with that key, and leaves the rows under other keys alone. *)
Definition last_wins {A} (ins : csv_row → gmap Z A → result (gmap Z A))
    (conv : csv_row → result (Z * A)) (id_column : string) : Prop :=
  ∀ (rows : list csv_row) (t t1 : gmap Z A),
    Forall (keyed id_column) rows →
    insert_rows ins rows t = (t1, None) →
    (∀ k, Forall (λ row, record_key conv row ≠ Some k) rows → t1 !! k = t !! k)
    ∧ (∀ pre row post k v,
         rows = pre ++ row :: post → conv row = Ok (k, v) →
         Forall (λ row, record_key conv row ≠ Some k) post →
         t1 !! k = Some v).

(** A computation that leaves the store and the session as they are: the
    tables, the database file, the files of the directory and [self.conn]. *)
Definition read_only {A} (m : M A) : Prop :=
  ∀ w, tables (m w).2 = tables w
       ∧ file_db (m w).2 = file_db w
       ∧ files (m w).2 = files w
       ∧ conn (m w).2 = conn w.

(** What [show_menu] prints. *)
Definition menu_output : list output :=
  [Printed (nl +:+ ComplaintsDatabase.banner);
   Printed "MUNICIPAL COMPLAINTS DATABASE - QUERY MENU";
   Printed ComplaintsDatabase.banner;
   Printed "1.  View all active complaints";
   Printed "2.  View complaints by category";
   Printed "3.  View complaints by ward";
   Printed "4.  View resident complaint history";
   Printed "5.  View complaint resolution statistics";
   Printed "6.  View overdue complaints (submitted over 30 days ago)";
   Printed "7.  View complaints by status";
   Printed "8.  View top complaint categories";
   Printed "9.  View ward performance summary";
   Printed "10. View complaint timeline for specific complaint";
   Printed "0.  Exit";
   Printed ComplaintsDatabase.banner].


(** The exceptions of the ingestion are [KeyError] and [IntegrityError]. *)
Definition ingestion_error (e : exn) : Prop :=
  match e with
  | KeyError _ | IntegrityError _ => True
  | _ => False
  end.

(** The sum of a list of integers. *)
Definition sum_Z (l : list Z) : Z := foldr Z.add 0 l.

(** The hundredths of a real with two decimals; 0 for the other values. *)
Definition hundredths_of (c : cell) : Z :=
  match c with
  | CReal2 h => h
  | _ => 0
  end.

(** [c] has a row in the categories table. *)
Definition has_category (db : database) (c : Z * complaint) : Prop :=
  is_Some (deref (service_categories db) (c_category_id c.2)).

(** [c] has a row in the residents table. *)
Definition has_resident (db : database) (c : Z * complaint) : Prop :=
  is_Some (deref (residents db) (c_resident_id c.2)).

(** [c] has at least one status event. *)
Definition has_status (db : database) (c : Z * complaint) : Prop :=
  events_of db c.1 ≠ [].

#[global] Instance has_category_dec db c : Decision (has_category db c).
Proof. unfold has_category. apply _. Defined.
#[global] Instance has_resident_dec db c : Decision (has_resident db c).
Proof. unfold has_resident. apply _. Defined.
#[global] Instance has_status_dec db c : Decision (has_status db c).
Proof. unfold has_status. apply _. Defined.

(** The row of [SELECT category_id, category_name FROM service_categories]
    for a category. *)
Definition category_row (sc : Z * service_category) : row :=
  [("category_id", CInt sc.1); ("category_name", CText (category_name sc.2))].

(** The line report 2 prints for a category before it asks for one. *)
Definition category_line (sc : Z * service_category) : output :=
  Printed (pretty sc.1 +:+ ". " +:+ category_name sc.2).

(** The width a value takes in a line of the table. *)
Definition column_width (s : string) : nat := String.length s `max` 15.

(** The sum of a list of natural numbers. *)
Definition sum_nat (l : list nat) : nat := foldr Nat.add 0%nat l.

(** * Properties *)

(** ** The order on values *)

Lemma string_compare_refl (s : string) : String.compare s s = Eq.
Proof. by apply String_as_OT.cmp_eq. Qed.

Lemma string_compare_trans_lt (s t u : string) :
  String.compare s t = Lt → String.compare t u = Lt → String.compare s u = Lt.
Proof.
  intros H1 H2. apply String_as_OT.cmp_lt.
  eapply String_as_OT.lt_trans; by apply String_as_OT.cmp_lt.
Qed.

Lemma string_compare_gt_lt (s t : string) :
  String.compare s t = Gt ↔ String.compare t s = Lt.
Proof.
  pose proof (String_as_OT.cmp_antisym s t) as H.
  unfold String_as_OT.cmp in H. rewrite H.
  destruct (String.compare t s); simpl; split; congruence.
Qed.

Lemma value_compare_gt_lt (a b : value) :
  value_compare a b = Gt ↔ value_compare b a = Lt.
Proof.
  destruct a, b; simpl; try (split; congruence).
  - rewrite Z.compare_gt_iff, Z.compare_lt_iff. done.
  - apply string_compare_gt_lt.
Qed.

Lemma value_compare_trans_lt (a b c : value) :
  value_compare a b = Lt → value_compare b c = Lt → value_compare a c = Lt.
Proof.
  destruct a, b, c; simpl; try congruence.
  - rewrite !Z.compare_lt_iff. lia.
  - apply string_compare_trans_lt.
Qed.

Lemma value_compare_eq (a b : value) : value_compare a b = Eq → a = b.
Proof.
  destruct a, b; simpl; try congruence.
  - intros ->%Z.compare_eq. done.
  - intros ->%String_as_OT.cmp_eq. done.
Qed.

Lemma value_compare_refl (a : value) : value_compare a a = Eq.
Proof. destruct a; simpl; [apply Z.compare_refl | apply string_compare_refl]. Qed.

#[global] Instance value_le_refl : Reflexive value_le.
Proof. intros a. unfold value_le. by rewrite value_compare_refl. Qed.

#[global] Instance value_le_total : Total value_le.
Proof.
  intros a b. unfold value_le.
  destruct (value_compare a b) eqn:E; [left; congruence | left; congruence |].
  right. apply value_compare_gt_lt in E. congruence.
Qed.

#[global] Instance value_le_trans : Transitive value_le.
Proof.
  intros a b c. unfold value_le. intros Hab Hbc Hac.
  apply value_compare_gt_lt in Hac.
  destruct (value_compare a b) eqn:E1; [| |done].
  - apply value_compare_eq in E1 as ->. apply value_compare_gt_lt in Hac. done.
  - destruct (value_compare b c) eqn:E2; [| |done].
    + apply value_compare_eq in E2 as ->. apply value_compare_gt_lt in Hac. congruence.
    + pose proof (value_compare_trans_lt _ _ _ Hac E1) as H.
      apply value_compare_gt_lt in H. congruence.
Qed.

#[global] Instance asc_total {A} (k : A → value) : Total (asc k).
Proof. intros x y. unfold asc. apply value_le_total. Qed.
#[global] Instance asc_trans {A} (k : A → value) : Transitive (asc k).
Proof. intros x y z. unfold asc. apply value_le_trans. Qed.
#[global] Instance desc_total {A} (k : A → value) : Total (desc k).
Proof. intros x y. unfold desc. destruct (value_le_total (k x) (k y)); auto. Qed.
#[global] Instance desc_trans {A} (k : A → value) : Transitive (desc k).
Proof. intros x y z. unfold desc. intros ??. by etrans. Qed.

#[global] Instance asc_refl {A} (k : A → value) : Reflexive (asc k).
Proof. intros x. unfold asc. apply value_le_refl. Qed.
#[global] Instance desc_refl {A} (k : A → value) : Reflexive (desc k).
Proof. intros x. unfold desc. apply value_le_refl. Qed.

#[global] Instance key_le_total {A} : Total (@key_le A).
Proof. intros x y. unfold key_le. lia. Qed.
#[global] Instance key_le_trans {A} : Transitive (@key_le A).
Proof. intros x y z. unfold key_le. lia. Qed.

(** ** Sorting *)

Lemma order_by_perm {A} (R : relation A) `{!RelDecision R} (l : list A) :
  order_by R l ≡ₚ l.
Proof. apply merge_sort_Permutation. Qed.

Lemma elem_of_order_by {A} (R : relation A) `{!RelDecision R} (l : list A) x :
  x ∈ order_by R l ↔ x ∈ l.
Proof. by rewrite order_by_perm. Qed.

Lemma order_by_sorted {A} (R : relation A) `{!RelDecision R}
    `{!Total R} `{!Transitive R} (l : list A) :
  StronglySorted R (order_by R l).
Proof. by apply StronglySorted_merge_sort. Qed.

Lemma order_by_nil {A} (R : relation A) `{!RelDecision R} (l : list A) :
  order_by R l = [] ↔ l = [].
Proof.
  split.
  - intros H. pose proof (order_by_perm R l) as Hp. rewrite H in Hp.
    by apply Permutation_nil_l in Hp.
  - intros ->. reflexivity.
Qed.

(** The first row of a sorted list is related to every row. *)
Lemma order_by_head {A} (R : relation A) `{!RelDecision R}
    `{!Total R} `{!Transitive R} `{!Reflexive R} (l : list A) x :
  head (order_by R l) = Some x → x ∈ l ∧ ∀ y, y ∈ l → R x y.
Proof.
  intros Hh. pose proof (order_by_sorted R l) as Hs.
  pose proof (order_by_perm R l) as Hp.
  destruct (order_by R l) as [|x' l'] eqn:E; simplify_eq/=.
  split.
  - rewrite <-Hp. by left.
  - intros y Hy. rewrite <-Hp in Hy. apply StronglySorted_inv in Hs as [_ Hall].
    apply elem_of_cons in Hy as [->|Hy]; [done|].
    rewrite Forall_forall in Hall. by apply Hall.
Qed.

(** ** Table scans *)

Lemma elem_of_scan {A} (t : gmap Z A) k v :
  (k, v) ∈ scan t ↔ t !! k = Some v.
Proof.
  unfold scan. rewrite merge_sort_Permutation. apply elem_of_map_to_list.
Qed.

Lemma NoDup_scan_keys {A} (t : gmap Z A) : NoDup (scan t).*1.
Proof.
  unfold scan. rewrite merge_sort_Permutation. apply NoDup_fst_map_to_list.
Qed.

Lemma NoDup_scan {A} (t : gmap Z A) : NoDup (scan t).
Proof.
  unfold scan. rewrite merge_sort_Permutation. apply NoDup_map_to_list.
Qed.

Lemma scan_sorted {A} (t : gmap Z A) : StronglySorted key_le (scan t).
Proof. unfold scan. apply StronglySorted_merge_sort; apply _. Qed.


Lemma filter_none {A} (P : A → Prop) `{!∀ x, Decision (P x)} (l : list A) :
  (∀ x, x ∈ l → ¬ P x) → filter P l = [].
Proof.
  induction l as [|x l IH]; intros Hno; [done|].
  rewrite filter_cons_False by (apply Hno; left).
  apply IH. intros y Hy. apply Hno. by right.
Qed.

Lemma StronglySorted_filter {A} (R : relation A) (P : A → Prop)
    `{!∀ x, Decision (P x)} (l : list A) :
  StronglySorted R l → StronglySorted R (filter P l).
Proof.
  induction 1 as [|x l Hs IH Hall]; [constructor|].
  destruct (decide (P x)).
  - rewrite filter_cons_True by done. constructor; [done|].
    rewrite Forall_forall in *. intros y [_ Hy]%list_elem_of_filter. by apply Hall.
  - by rewrite filter_cons_False.
Qed.

(** Selecting one key from rows with distinct keys leaves at most the row
    under that key. *)
Lemma filter_key_absent {A} (l : list (Z * A)) k :
  k ∉ l.*1 → filter (λ x, x.1 = k) l = [].
Proof.
  intros Hk. apply filter_none. intros [k' v] Hin Heq. simpl in Heq. subst.
  apply Hk. apply list_elem_of_fmap. by exists (k, v).
Qed.

Lemma filter_key_present {A} (l : list (Z * A)) k v :
  NoDup l.*1 → (k, v) ∈ l → filter (λ x, x.1 = k) l = [(k, v)].
Proof.
  induction l as [|[k' v'] l IH]; intros Hnd Hin; [by apply elem_of_nil in Hin|].
  rewrite fmap_cons in Hnd. apply NoDup_cons in Hnd as [Hk' Hnd]. simpl in Hk'.
  apply elem_of_cons in Hin as [Heq|Hin].
  - simplify_eq. rewrite filter_cons_True by done.
    by rewrite filter_key_absent.
  - rewrite filter_cons_False; [by apply IH|].
    simpl. intros ->. apply Hk'. apply list_elem_of_fmap. by exists (k, v).
Qed.

Lemma filter_scan_key {A} (t : gmap Z A) (v : value) :
  filter (λ r, v = VInt r.1) (scan t)
  = match v with
    | VInt k => match t !! k with Some r => [(k, r)] | None => [] end
    | VText _ => []
    end.
Proof.
  destruct v as [k|s].
  - rewrite (list_filter_iff _ (λ x, x.1 = k)) by (intros x; split; congruence).
    destruct (t !! k) as [r|] eqn:E.
    + apply filter_key_present; [apply NoDup_scan_keys | by apply elem_of_scan].
    + apply filter_key_absent. intros ([k' r] & Hk & Hin)%list_elem_of_fmap.
      simpl in Hk. subst. apply elem_of_scan in Hin. congruence.
  - apply filter_none. intros ? ? ?. done.
Qed.

Lemma join_residents_lookup db c :
  join_residents db c
  = match c_resident_id c with
    | VInt k => match residents db !! k with Some r => [(k, r)] | None => [] end
    | VText _ => []
    end.
Proof. apply filter_scan_key. Qed.

Lemma join_categories_lookup db c :
  join_categories db c
  = match c_category_id c with
    | VInt k => match service_categories db !! k with Some sc => [(k, sc)] | None => [] end
    | VText _ => []
    end.
Proof. apply filter_scan_key. Qed.

(** Removing a key from a table removes its row from the scan. *)
Lemma scan_delete {A} (t : gmap Z A) k :
  scan (delete k t) = filter (λ x, x.1 ≠ k) (scan t).
Proof.
  apply (StronglySorted_unique_strong key_le).
  - intros [k1 v1] [k2 v2] H1 H2 Hle1 Hle2. unfold key_le in *. simpl in *.
    assert (k1 = k2) as -> by lia.
    apply elem_of_scan in H1. apply list_elem_of_filter in H2 as [_ H2].
    apply elem_of_scan in H2. apply lookup_delete_Some in H1 as [_ H1]. congruence.
  - apply scan_sorted.
  - apply StronglySorted_filter, scan_sorted.
  - apply NoDup_Permutation.
    + apply NoDup_scan.
    + apply NoDup_filter, NoDup_scan.
    + intros [k' v]. rewrite list_elem_of_filter, !elem_of_scan, lookup_delete_Some.
      simpl. intuition congruence.
Qed.

(** ** The latest-status relation *)

Lemma elem_of_partition_rows k logs e :
  e ∈ partition_rows k logs ↔ l_complaint_id e = k ∧ e ∈ logs.*2.
Proof.
  unfold partition_rows. by rewrite elem_of_order_by, list_elem_of_filter.
Qed.

Lemma filter_rn_imap_later {A} (f : A → nat → sl_row) (P : sl_row → Prop)
    `{!∀ x, Decision (P x)} (l : list A) (n : nat) :
  (∀ e i, sl_rn (f e i) = i) → (1 < n)%nat →
  filter (λ sl, P sl ∧ sl_rn sl = 1%nat) (imap (λ i e, f e (n + i)%nat) l) = [].
Proof.
  intros Hf. revert n. induction l as [|x l IH]; intros n Hn; [done|].
  rewrite imap_cons. rewrite filter_cons_False by (rewrite Hf; lia).
  rewrite <-(IH (S n)) by lia. f_equal. apply imap_ext. intros i y _. simpl.
  f_equal. lia.
Qed.

(** Of a numbered partition the join keeps the first row only. *)
Lemma filter_numbered k k' logs :
  filter (λ sl, k' = sl_complaint_id sl ∧ sl_rn sl = 1%nat) (numbered k logs)
  = if decide (k = k') then take 1 (numbered k logs) else [].
Proof.
  unfold numbered.
  pose proof (elem_of_partition_rows k logs) as Hel.
  destruct (partition_rows k logs) as [|e l]; [by case_decide|].
  assert (l_complaint_id e = k) as Hk by (apply Hel; left).
  rewrite imap_cons. simpl.
  pose proof (filter_rn_imap_later
    (λ e i, SlRow (l_complaint_id e) (status e) (status_date e) i)
    (λ sl, k' = sl_complaint_id sl) l 2) as Hl.
  simpl in Hl.
  case_decide as Hkk.
  - rewrite filter_cons_True by (simpl; split; congruence).
    f_equal. apply Hl; [done|lia].
  - rewrite filter_cons_False by (simpl; intros [? _]; congruence).
    apply Hl; [done|lia].
Qed.

Lemma bind_select {A B} `{EqDecision A} (f : A → list B) (ks : list A) (k : A) :
  NoDup ks →
  (ks ≫= λ x, if decide (x = k) then f x else []) = if decide (k ∈ ks) then f k else [].
Proof.
  induction ks as [|x ks IH]; intros Hnd; [done|].
  apply NoDup_cons in Hnd as [Hx Hnd]. rewrite bind_cons, IH by done.
  destruct (decide (x = k)) as [->|Hne].
  - rewrite decide_False by done. rewrite decide_True by left. by rewrite app_nil_r.
  - simpl. destruct (decide (k ∈ ks)) as [Hin|Hnin].
    + rewrite decide_True by (by right). done.
    + rewrite decide_False; [done|]. intros [?|?]%elem_of_cons; congruence.
Qed.

Lemma filter_bind {A B} (P : B → Prop) `{!∀ x, Decision (P x)}
    (f : A → list B) (l : list A) :
  filter P (l ≫= f) = l ≫= (λ x, filter P (f x)).
Proof.
  induction l as [|x l IH]; [done|]. by rewrite !bind_cons, filter_app, IH.
Qed.

(** The join on the latest status keeps, for a complaint, the first row of
    its partition sorted by date, latest first. *)
Lemma join_latest_take db cid :
  join_latest db cid = take 1 (numbered (VInt cid) (scan (status_logs db))).
Proof.
  unfold join_latest, latest_status_subquery. cbv zeta.
  rewrite filter_bind.
  erewrite list_bind_ext; [|intros k; apply filter_numbered|reflexivity].
  rewrite (bind_select (λ k, take 1 (numbered k (scan (status_logs db)))))
    by apply NoDup_remove_dups.
  case_decide as Hin; [done|].
  unfold numbered.
  pose proof (elem_of_partition_rows (VInt cid) (scan (status_logs db))) as Hel.
  destruct (partition_rows _ _) as [|e l]; [done|].
  exfalso. apply Hin. apply elem_of_remove_dups.
  destruct (Hel e) as [[Hk He] _]; [left|].
  apply list_elem_of_fmap in He as ([i e'] & -> & He).
  apply list_elem_of_fmap. by exists (i, e').
Qed.

Lemma join_latest_head db cid :
  join_latest db cid
  = match head (partition_rows (VInt cid) (scan (status_logs db))) with
    | Some e => [SlRow (l_complaint_id e) (status e) (status_date e) 1]
    | None => []
    end.
Proof.
  rewrite join_latest_take. unfold numbered.
  destruct (partition_rows _ _) as [|e l]; [done|]. by rewrite imap_cons.
Qed.

Lemma current_status_head db cid :
  current_status db cid
  = status <$> head (partition_rows (VInt cid) (scan (status_logs db))).
Proof.
  unfold current_status. rewrite join_latest_head.
  by destruct (head (partition_rows _ _)).
Qed.

(** ** Complaints without status events *)

(** The events of a complaint are the rows of the log that refer to it. *)
Lemma elem_of_events_of db cid e :
  e ∈ events_of db cid ↔
    l_complaint_id e = VInt cid ∧ ∃ i, status_logs db !! i = Some e.
Proof.
  unfold events_of. rewrite list_elem_of_filter.
  split; intros [Hk He]; (split; [done|]).
  - apply list_elem_of_fmap in He as ([i e'] & -> & He). exists i. by apply elem_of_scan.
  - destruct He as [i He]. apply list_elem_of_fmap. exists (i, e). split; [done|].
    by apply elem_of_scan.
Qed.

Lemma partition_rows_events db cid :
  partition_rows (VInt cid) (scan (status_logs db))
  = order_by (desc status_date) (events_of db cid).
Proof. reflexivity. Qed.

Lemma join_latest_no_event db cid :
  events_of db cid = [] → join_latest db cid = [].
Proof.
  intros Hno. rewrite join_latest_head, partition_rows_events, Hno. done.
Qed.

Lemma bind_filter_skip {A B} (P : A → Prop) `{!∀ x, Decision (P x)}
    (f : A → list B) (l : list A) :
  (∀ x, ¬ P x → f x = []) → filter P l ≫= f = l ≫= f.
Proof.
  intros Hf. induction l as [|x l IH]; [done|].
  rewrite bind_cons. destruct (decide (P x)).
  - rewrite filter_cons_True by done. by rewrite bind_cons, IH.
  - rewrite filter_cons_False by done. rewrite Hf by done. done.
Qed.

Lemma bind_nil_r {A B} (l : list A) : l ≫= (λ _, @nil B) = [].
Proof. induction l as [|x l IH]; [done|]. by rewrite bind_cons, IH. Qed.

(** A comprehension over the complaints does not see a complaint whose
    contribution is empty. *)
Lemma scan_delete_bind {B} (db : database) cid (f : Z * complaint → list B) :
  (∀ c, f (cid, c) = []) →
  scan (delete cid (complaints db)) ≫= f = scan (complaints db) ≫= f.
Proof.
  intros Hf. rewrite scan_delete. apply bind_filter_skip.
  intros [k c] Hk. simpl in Hk. apply dec_stable in Hk as ->. apply Hf.
Qed.

Section no_events.
Context (db : database) (cid : Z).
Hypothesis no_event : events_of db cid = [].

Lemma full_join_delete : full_join (delete_complaint cid db) = full_join db.
Proof using no_event.
  unfold full_join. simpl. apply scan_delete_bind. intros c. simpl.
  rewrite join_latest_no_event by done.
  erewrite list_bind_ext; [apply bind_nil_r| |done].
  intros r. simpl. apply bind_nil_r.
Qed.

Lemma not_in_full_join j : j ∈ full_join db → (j_c j).1 ≠ cid.
Proof using no_event.
  unfold full_join. intros Hj Hcid.
  apply list_elem_of_bind in Hj as (c & Hj & _).
  apply list_elem_of_bind in Hj as (r & Hj & _).
  apply list_elem_of_bind in Hj as (sc & Hj & _).
  apply list_elem_of_bind in Hj as (sl & Hj & Hsl).
  apply list_elem_of_singleton in Hj as ->. simpl in Hcid. subst.
  rewrite join_latest_no_event in Hsl by done. by apply elem_of_nil in Hsl.
Qed.
End no_events.

Ltac skip_complaint H :=
  apply scan_delete_bind; intros ?; simpl;
  rewrite join_latest_no_event by exact H;
  repeat first
    [ apply bind_nil_r
    | erewrite list_bind_ext; [apply bind_nil_r | intros ?; simpl | reflexivity] ].

Lemma no_event_not_counted age_ms db cid :
  events_of db cid = [] → not_counted age_ms db cid.
Proof.
  intros Hno. pose proof (full_join_delete db cid Hno) as Hfj.
  unfold not_counted. cbv zeta.
  unfold sql_1_active_complaints, sql_2_complaints_by_category,
    sql_3_complaints_by_ward, sql_4_resident_history,
    sql_5_resolution_statistics, sql_6_overdue_complaints,
    sql_7_complaints_by_status, sql_9_ward_performance.
  unfold active_complaints, complaints_by_category, complaints_by_ward,
    overdue_complaints, complaints_by_status.
  rewrite !Hfj.
  repeat split; try done.
  - intros p. unfold resident_history. do 3 f_equal. simpl. by skip_complaint Hno.
  - unfold resolution_statistics. do 4 f_equal. simpl. by skip_complaint Hno.
  - unfold ward_performance. do 4 f_equal. simpl. by skip_complaint Hno.
Qed.

Lemma no_event_absent age_ms db cid :
  events_of db cid = [] → absent_from_listings age_ms db cid.
Proof.
  intros Hno. unfold absent_from_listings.
  unfold active_complaints, complaints_by_category, complaints_by_ward,
    overdue_complaints, complaints_by_status, resident_history.
  repeat split; intros;
    repeat match goal with
    | H : _ ∈ order_by _ _ |- _ => apply elem_of_order_by in H
    | H : _ ∈ filter _ _ |- _ => apply list_elem_of_filter in H as [_ H]
    end;
    try by eapply not_in_full_join.
  intros Hcid.
  match goal with H : _ ∈ _ ≫= _ |- _ => rename H into Hj end.
  apply list_elem_of_bind in Hj as (c & Hj & _).
  apply list_elem_of_bind in Hj as (sc & Hj & _).
  apply list_elem_of_bind in Hj as (sl & Hj & Hsl).
  apply list_elem_of_singleton in Hj as ->. simpl in Hcid. subst.
  rewrite join_latest_no_event in Hsl by done. by apply elem_of_nil in Hsl.
Qed.

(** The resolver picks an event of the complaint with the maximum date. *)
Lemma current_status_max db cid :
  events_of db cid ≠ [] →
  ∃ e, e ∈ events_of db cid
       ∧ current_status db cid = Some (status e)
       ∧ latest_in (events_of db cid) e.
Proof.
  intros Hne. rewrite current_status_head, partition_rows_events.
  destruct (head (order_by (desc status_date) (events_of db cid))) as [e|] eqn:Hh.
  - destruct (order_by_head (desc status_date) _ _ Hh) as [Hin Hmax].
    exists e. split; [done|split; [done|]].
    apply Forall_forall. intros e' He'. by apply (Hmax e').
  - apply head_None, order_by_nil in Hh. done.
Qed.

Lemma current_status_no_event db cid :
  events_of db cid = [] → current_status db cid = None.
Proof. intros Hno. unfold current_status. by rewrite join_latest_no_event. Qed.


(** C1.  For a complaint with at least one status event, the latest-status
    resolver yields the status of an event of that complaint whose date is
    the maximum over the complaint's events.  For a complaint with no status
    event it yields no current status, the complaint has no row in the
    listings 1, 2, 3, 4, 6, 7, and each of the reports 1-7 and 9 is what it
    is without the complaint. *)
Theorem resolver_latest_status (age_ms : clock) (db : database) (cid : Z) :
  (events_of db cid ≠ [] →
     ∃ e, e ∈ events_of db cid
          ∧ current_status db cid = Some (status e)
          ∧ latest_in (events_of db cid) e)
  ∧ (events_of db cid = [] →
       current_status db cid = None
       ∧ absent_from_listings age_ms db cid
       ∧ not_counted age_ms db cid).
Proof.
  split.
  - apply current_status_max.
  - intros Hno. split; [|split].
    + by apply current_status_no_event.
    + by apply no_event_absent.
    + by apply no_event_not_counted.
Qed.

Lemma resolver_latest_status_witness :
  (events_of scenario_B 1 ≠ []
   ∧ ∃ e, e ∈ events_of scenario_B 1
          ∧ current_status scenario_B 1 = Some (status e)
          ∧ latest_in (events_of scenario_B 1) e)
  ∧ (events_of scenario_no_event 2 = []
     ∧ current_status scenario_no_event 2 = None
     ∧ absent_from_listings no_clock scenario_no_event 2
     ∧ not_counted no_clock scenario_no_event 2).
Proof.
  split.
  - assert (events_of scenario_B 1 ≠ []) as Hne by (vm_compute; discriminate).
    split; [exact Hne|].
    exact (proj1 (resolver_latest_status no_clock scenario_B 1) Hne).
  - assert (events_of scenario_no_event 2 = []) as Hno by (vm_compute; reflexivity).
    split; [exact Hno|].
    exact (proj2 (resolver_latest_status no_clock scenario_no_event 2) Hno).
Defined.

(** ** The join of a complaint with its resident, category and status *)

Lemma join_residents_deref db c :
  join_residents db c = option_list (deref (residents db) (c_resident_id c)).
Proof.
  rewrite join_residents_lookup. unfold deref.
  destruct (c_resident_id c) as [k|]; [|done]. by destruct (residents db !! k).
Qed.

Lemma join_categories_deref db c :
  join_categories db c = option_list (deref (service_categories db) (c_category_id c)).
Proof.
  rewrite join_categories_lookup. unfold deref.
  destruct (c_category_id c) as [k|]; [|done]. by destruct (service_categories db !! k).
Qed.

Lemma join_latest_option db cid :
  join_latest db cid = option_list (head (join_latest db cid)).
Proof. rewrite join_latest_head at 1 2. by destruct (head (partition_rows _ _)). Qed.


Lemma full_join_contribution db :
  full_join db = scan (complaints db) ≫= contribution db.
Proof.
  unfold full_join. apply list_bind_ext; [|done]. intros c. unfold contribution.
  rewrite join_residents_deref.
  destruct (deref (residents db) _) as [r|]; [|done].
  simpl. rewrite app_nil_r, join_categories_deref.
  destruct (deref (service_categories db) _) as [sc|]; [|done].
  simpl. rewrite app_nil_r, join_latest_option.
  destruct (head (join_latest db c.1)) as [sl|]; done.
Qed.


Lemma full_join_sublist db :
  j_c <$> full_join db `sublist_of` scan (complaints db).
Proof.
  rewrite full_join_contribution.
  induction (scan (complaints db)) as [|c l IH]; [done|].
  rewrite bind_cons, fmap_app. unfold contribution at 1.
  destruct (deref (residents db) _); [|by apply sublist_cons].
  destruct (deref (service_categories db) _); [|by apply sublist_cons].
  destruct (head (join_latest db c.1)); [|by apply sublist_cons].
  simpl. by apply sublist_skip.
Qed.

Lemma full_join_NoDup db : NoDup ((λ j, (j_c j).1) <$> full_join db).
Proof.
  rewrite (list_fmap_compose j_c fst).
  apply sublist_NoDup with (scan (complaints db)).*1.
  - apply NoDup_scan_keys.
  - apply fmap_sublist, full_join_sublist.
Qed.

Lemma filter_fmap_NoDup {A B} (f : A → B) (P : A → Prop) `{!∀ x, Decision (P x)}
    (l : list A) :
  NoDup (f <$> l) → NoDup (f <$> filter P l).
Proof.
  intros Hnd. eapply sublist_NoDup; [exact Hnd|]. apply fmap_sublist, sublist_filter.
Qed.

Lemma order_by_fmap_NoDup {A B} (f : A → B) (R : relation A) `{!RelDecision R}
    (l : list A) :
  NoDup (f <$> l) → NoDup (f <$> order_by R l).
Proof. intros Hnd. by rewrite order_by_perm. Qed.


(** ** Report 1 *)

Lemma elem_of_active_complaints db j :
  j ∈ active_complaints db ↔ j ∈ full_join db ∧ sl_status (j_sl j) ≠ "Resolved".
Proof.
  unfold active_complaints. rewrite elem_of_order_by, list_elem_of_filter. tauto.
Qed.


Lemma referential_integrity_lookup db cid c :
  referential_integrity db → complaints db !! cid = Some c →
  is_Some (deref (residents db) (c_resident_id c))
  ∧ is_Some (deref (service_categories db) (c_category_id c)).
Proof. intros Hri Hc. by apply (Hri cid c). Qed.




(** Scenario A: the Active Complaints report is empty. *)
Example scenario_A_active : sql_1_active_complaints scenario_A = [].
Proof. reflexivity. Qed.

(** Scenario B: the Active Complaints report has one row, "In Progress",
    in either order of the log. *)
Example scenario_B_active :
  sql_1_active_complaints scenario_B
  = [[("complaint_id", CInt 1); ("resident_name", CText "A B");
      ("category_name", CText "Pothole"); ("title", CText "Hole");
      ("submission_date", CText "2024-01-01"); ("status", CText "In Progress")]]
  ∧ sql_1_active_complaints scenario_B' = sql_1_active_complaints scenario_B.
Proof. split; reflexivity. Qed.

(** ** Statistics (reports 5 and 9) *)

Lemma elem_of_group_by {A K} `{EqDecision K} (key : A → K) (l : list A) k g :
  (k, g) ∈ group_by key l → g = filter (λ x, key x = k) l ∧ g ≠ [].
Proof.
  unfold group_by. intros (k' & Heq & Hk)%list_elem_of_fmap. simplify_eq.
  split; [done|].
  apply elem_of_remove_dups, list_elem_of_fmap in Hk as (x & -> & Hx).
  intros Hnil. apply (filter_nil_not_elem_of _ _ x) in Hnil; done.
Qed.

Lemma case_status_bounds sl :
  0 ≤ case_status "Resolved" sl
  ∧ 0 ≤ case_status "In Progress" sl
  ∧ 0 ≤ case_status "Submitted" sl
  ∧ case_status "Resolved" sl + case_status "In Progress" sl
    + case_status "Submitted" sl ≤ 1.
Proof.
  unfold case_status. repeat case_decide; try lia; congruence.
Qed.

Lemma sql_sum_cons {A} (e : A → Z) x g : sql_sum e (x :: g) = e x + sql_sum e g.
Proof. reflexivity. Qed.

Lemma sql_count_cons {A} (x : A) g : sql_count (x :: g) = 1 + sql_count g.
Proof. unfold sql_count. simpl length. lia. Qed.

Lemma status_sums_le g :
  0 ≤ sql_sum (case_status "Resolved") g
  ∧ sql_sum (case_status "Resolved") g + sql_sum (case_status "In Progress") g
    + sql_sum (case_status "Submitted") g ≤ sql_count g.
Proof.
  induction g as [|sl g IH]; [done|].
  rewrite !sql_sum_cons, sql_count_cons.
  pose proof (case_status_bounds sl). lia.
Qed.

Lemma rate_cell_rounded n d :
  0 < d → ∃ h, rate_cell n d = CReal2 h ∧ rounded_to_2_decimals (n * 100) d h.
Proof.
  intros Hd. unfold rate_cell. rewrite decide_False by lia.
  eexists. split; [done|]. unfold rounded_to_2_decimals.
  pose proof (Z.div_mod (2 * (n * 10000) + d) (2 * d)) as Hdm.
  pose proof (Z.mod_pos_bound (2 * (n * 10000) + d) (2 * d)) as Hmod.
  lia.
Qed.

Lemma stats_of_consistent g : g ≠ [] → stats_consistent (stats_of g).
Proof.
  intros Hg. unfold stats_consistent, stats_of. simpl.
  assert (0 < sql_count g) as Hpos.
  { destruct g; [done|]. rewrite sql_count_cons. unfold sql_count. lia. }
  split; [done|]. split; [apply status_sums_le|].
  by apply rate_cell_rounded.
Qed.

Lemma grouped_stats_consistent {A K} `{EqDecision K} (key : A → K) (sl : A → sl_row)
    (l : list A) (g : K * stats) :
  g ∈ (λ g : K * list A, (g.1, stats_of (sl <$> g.2))) <$> group_by key l →
  stats_consistent g.2.
Proof.
  intros ([k m] & -> & Hm)%list_elem_of_fmap. simpl.
  apply elem_of_group_by in Hm as [_ Hne].
  apply stats_of_consistent. by destruct m.
Qed.

(** C3.  Every row of the resolution statistics (report 5) and of the ward
    performance (report 9) has a positive total, so the rate is defined;
    resolved + in_progress + submitted is at most the total; and the
    resolution rate is resolved * 100 / total rounded to two decimals. *)
Theorem statistics_rows_consistent (db : database) :
  (∀ g, g ∈ resolution_statistics db → stats_consistent g.2)
  ∧ (∀ g, g ∈ ward_performance db → stats_consistent g.2).
Proof.
  split; intros g Hg.
  - unfold resolution_statistics in Hg. apply elem_of_order_by in Hg.
    by eapply grouped_stats_consistent.
  - unfold ward_performance in Hg. apply elem_of_order_by in Hg.
    by eapply grouped_stats_consistent.
Qed.

Lemma statistics_rows_consistent_witness :
  let g := ((1, ServiceCategory "Pothole"), Stats 2 0 1 1 (CReal2 0)) in
  g ∈ resolution_statistics scenario_dangling ∧ stats_consistent g.2.
Proof.
  intros g.
  assert (g ∈ resolution_statistics scenario_dangling) as Hg
    by (vm_compute; left).
  split; [exact Hg|].
  exact (proj1 (statistics_rows_consistent scenario_dangling) g Hg).
Defined.

(** ** Ingestion *)

Lemma foldl_put_union {A} (kvs : list (Z * A)) (t : gmap Z A) :
  foldl put t kvs = list_to_map (reverse kvs) ∪ t.
Proof.
  revert t. induction kvs as [|[k v] kvs IH]; intros t; simpl.
  - by rewrite (left_id_L ∅ (∪)).
  - rewrite IH, reverse_cons, list_to_map_app. simpl.
    rewrite <-(assoc_L (∪)). f_equal. unfold put. simpl.
    by rewrite insert_union_singleton_l, insert_empty.
Qed.

(** Writing the same rows again changes nothing. *)
Lemma foldl_put_twice {A} (kvs : list (Z * A)) (t : gmap Z A) :
  foldl put (foldl put t kvs) kvs = foldl put t kvs.
Proof.
  rewrite !foldl_put_union. rewrite (assoc_L (∪)). by rewrite (idemp_L (∪)).
Qed.

Section keyed_inserts.
Context {A : Type}.
(** An insertion that, on the records satisfying [P], writes a row that
    does not depend on the table. *)
Variable ins : csv_row → gmap Z A → result (gmap Z A).
Variable conv : csv_row → result (Z * A).
Variable P : csv_row → Prop.
Hypothesis ins_conv : ∀ row t, P row → ins row t = put t <$> conv row.

Lemma insert_rows_converted rows t :
  Forall P rows →
  insert_rows ins rows t = (foldl put t (converted conv rows).1, (converted conv rows).2).
Proof using ins_conv.
  intros HP. revert t. induction HP as [|row rows Hrow HP IH]; intros t; [done|].
  simpl. rewrite ins_conv by done.
  destruct (conv row) as [kv|e]; simpl; [apply IH|done].
Qed.

Lemma insert_rows_twice rows t t1 r :
  Forall P rows →
  insert_rows ins rows t = (t1, r) → insert_rows ins rows t1 = (t1, r).
Proof using ins_conv.
  intros HP. rewrite !insert_rows_converted by done.
  intros [= <- <-]. by rewrite foldl_put_twice.
Qed.
End keyed_inserts.

Lemma insert_or_replace_keyed {A} (s : string) (payload : result A) (t : gmap Z A) :
  insert_or_replace (Some s) payload t = put t <$> keyed_row (Some s) payload.
Proof.
  unfold insert_or_replace, keyed_row, primary_key.
  destruct (parse_int s) as [k|]; [|done]. by destruct payload.
Qed.

Lemma field_keyed (row : csv_row) (c : string) :
  keyed c row → field row c ≠ Ok None.
Proof. unfold keyed, field. destruct (row !! c) as [[s|]|]; congruence. Qed.

Ltac keyed_insert id_column :=
  let row := fresh "row" in
  let t := fresh "t" in
  let Hk := fresh "Hk" in
  intros row t Hk; apply field_keyed in Hk;
  cbv [insert_resident insert_category insert_complaint insert_status_log
       resident_of_record category_of_record complaint_of_record
       status_log_of_record];
  destruct (field row id_column) as [[?|]|?]; [|done|done];
  repeat match goal with
  | |- context [field row ?c] => destruct (field row c) as [?|?]; [|done]
  end;
  apply insert_or_replace_keyed.

Lemma insert_resident_keyed row t :
  keyed "resident_id" row → insert_resident row t = put t <$> resident_of_record row.
Proof. revert row t. keyed_insert "resident_id". Qed.

Lemma insert_category_keyed row t :
  keyed "category_id" row → insert_category row t = put t <$> category_of_record row.
Proof. revert row t. keyed_insert "category_id". Qed.

Lemma insert_complaint_keyed row t :
  keyed "complaint_id" row → insert_complaint row t = put t <$> complaint_of_record row.
Proof. revert row t. keyed_insert "complaint_id". Qed.

Lemma insert_status_log_keyed row t :
  keyed "log_id" row → insert_status_log row t = put t <$> status_log_of_record row.
Proof. revert row t. keyed_insert "log_id". Qed.

(** C5, as the code has it.  When every record of the sources has a value
    in the identity column of its table, running the ingestion a second time
    on the tables the first run left ends as the first run did and leaves
    every table as it was. *)
Theorem load_records_idempotent (csv_files : gmap string string) (fs : file_system)
    (db db1 : database) (r : option exn) :
  sources_keyed csv_files fs →
  load_records csv_files fs db = (db1, r) →
  load_records csv_files fs db1 = (db1, r).
Proof.
  intros (Hr & Hsc & Hc & Hl). unfold load_records.
  destruct (insert_rows insert_resident _ (residents db)) as [t1 e1] eqn:E1.
  apply (insert_rows_twice _ _ _ insert_resident_keyed) in E1; [|done].
  simpl.
  destruct e1 as [e1|].
  { intros [= <- <-]. simpl. by rewrite E1. }
  destruct (insert_rows insert_category _ (service_categories db)) as [t2 e2] eqn:E2.
  apply (insert_rows_twice _ _ _ insert_category_keyed) in E2; [|done].
  destruct e2 as [e2|].
  { intros [= <- <-]. simpl. by rewrite E1, E2. }
  destruct (insert_rows insert_complaint _ (complaints db)) as [t3 e3] eqn:E3.
  apply (insert_rows_twice _ _ _ insert_complaint_keyed) in E3; [|done].
  destruct e3 as [e3|].
  { intros [= <- <-]. simpl. by rewrite E1, E2, E3. }
  destruct (insert_rows insert_status_log _ (status_logs db)) as [t4 e4] eqn:E4.
  apply (insert_rows_twice _ _ _ insert_status_log_keyed) in E4; [|done].
  intros [= <- <-]. simpl. by rewrite E1, E2, E3, E4.
Qed.

Lemma load_records_idempotent_witness :
  sources_keyed ComplaintsCLI.csv_files files_B
  ∧ (load_records ComplaintsCLI.csv_files files_B empty_database).2 = None
  ∧ load_records ComplaintsCLI.csv_files files_B
      (load_records ComplaintsCLI.csv_files files_B empty_database).1
    = load_records ComplaintsCLI.csv_files files_B empty_database.
Proof.
  assert (sources_keyed ComplaintsCLI.csv_files files_B) as Hk
    by (apply (bool_decide_unpack _); vm_compute; exact I).
  split; [exact Hk|]. split; [vm_compute; reflexivity|].
  rewrite (surjective_pairing
             (load_records ComplaintsCLI.csv_files files_B empty_database)) at 2.
  apply (load_records_idempotent _ _ empty_database); [exact Hk|].
  apply surjective_pairing.
Defined.

(** The ingestion of scenario B's files yields scenario B's tables. *)
Example load_scenario_B :
  load_records ComplaintsCLI.csv_files files_B empty_database
  = (Database {[ 1 := Resident "A" "B" (VInt 3) (Some "") (Some "") ]}
              (service_categories scenario_B) (complaints scenario_B)
              (status_logs scenario_B), None).
Proof. vm_compute. reflexivity. Qed.

(** C5, as stated, fails: a record without identity is given a fresh key
    at every run, so a second run adds a row. *)
Lemma load_records_not_idempotent :
  ∃ db1 db2,
    load_records ComplaintsCLI.csv_files files_unkeyed empty_database = (db1, None)
    ∧ load_records ComplaintsCLI.csv_files files_unkeyed db1 = (db2, None)
    ∧ service_categories db1 = {[ 1 := ServiceCategory "Pothole" ]}
    ∧ service_categories db2
      = {[ 1 := ServiceCategory "Pothole"; 2 := ServiceCategory "Pothole" ]}
    ∧ db2 ≠ db1.
Proof.
  eexists _, _. split; [vm_compute; reflexivity|].
  split; [vm_compute; reflexivity|].
  split; [vm_compute; reflexivity|].
  split; [vm_compute; reflexivity|].
  intros Heq. apply (f_equal (λ d, service_categories d !! 2)) in Heq.
  vm_compute in Heq. discriminate.
Qed.

(** ** The tabular renderer *)

Import ComplaintsDatabase.

Lemma writes_app os1 os2 w : writes os2 (writes os1 w) = writes (os1 ++ os2) w.
Proof. unfold writes. by rewrite foldl_app. Qed.

Lemma writes_snoc os o w : write o (writes os w) = writes (os ++ [o]) w.
Proof. by rewrite <-writes_app. Qed.

Lemma bind_print {A} (s : string) (k : M A) (w : world) :
  (print s;; k) w = k (write (Printed s) w).
Proof. reflexivity. Qed.

Lemma row_get_skip (pre : row) (col : string) (v : cell) (suf : row) :
  lower_string col ∉ lower_string <$> row_keys pre →
  row_get (pre ++ (col, v) :: suf) col = Ok v.
Proof.
  induction pre as [|[c x] pre IH]; intros Hnot; simpl.
  - by rewrite decide_True.
  - unfold row_keys in Hnot. rewrite !fmap_cons in Hnot. simpl in Hnot.
    apply not_elem_of_cons in Hnot as [Hne Hnot].
    rewrite decide_False by congruence. by apply IH.
Qed.

Lemma row_cells_from (pre suf : row) :
  NoDup (lower_string <$> row_keys (pre ++ suf)) →
  mapM (λ col, str_cell <$> row_get (pre ++ suf) col) (row_keys suf)
  = Ok ((str_cell ∘ snd) <$> suf).
Proof.
  revert pre. induction suf as [|[c v] suf IH]; intros pre Hnd; [done|].
  simpl. rewrite row_get_skip; cycle 1.
  { unfold row_keys in *. rewrite fmap_app, fmap_app, fmap_cons in Hnd.
    apply NoDup_app in Hnd as (_ & Hdis & _). intros Hin.
    apply (Hdis _ Hin). rewrite fmap_cons. left. }
  simpl. specialize (IH (pre ++ [(c, v)])).
  rewrite <-(assoc_L (++)) in IH. simpl in IH. rewrite IH by done. done.
Qed.

Lemma row_cells (r : row) :
  NoDup (lower_string <$> row_keys r) →
  mapM (λ col, str_cell <$> row_get r col) (row_keys r) = Ok ((str_cell ∘ snd) <$> r).
Proof. apply (row_cells_from []). Qed.

Lemma print_row_line (columns : list string) (r : row) (w : world) :
  NoDup (lower_string <$> columns) → row_keys r = columns →
  print_row columns r w = (Returns tt, write (Printed (row_line r)) w).
Proof.
  intros Hnd <-. unfold print_row, mbind, M_bind, lift. rewrite row_cells by done.
  unfold row_line. by rewrite <-list_fmap_compose.
Qed.

Lemma for_each_print_row (columns : list string) (results : list row) (w : world) :
  NoDup (lower_string <$> columns) →
  Forall (λ r, row_keys r = columns) results →
  for_each results (print_row columns) w
  = (Returns tt, writes ((Printed ∘ row_line) <$> results) w).
Proof.
  intros Hnd Hall. revert w. induction Hall as [|r results Hr Hall IH]; intros w; [done|].
  simpl. unfold mbind, M_bind. rewrite print_row_line by done. by rewrite IH.
Qed.

Lemma string_length_app (s t : string) :
  String.length (s +:+ t) = (String.length s + String.length t)%nat.
Proof.
  induction s as [|c s IH]; [done|].
  change (String c s +:+ t) with (String c (s +:+ t)). simpl. by rewrite IH.
Qed.

Lemma length_repeat_string (s : string) (n : nat) :
  String.length (repeat_string s n) = (n * String.length s)%nat.
Proof.
  induction n as [|n IH]; [done|]. simpl. rewrite string_length_app, IH. lia.
Qed.

Lemma pad15_length (s : string) :
  String.length (pad15 s) = (String.length s `max` 15)%nat.
Proof.
  unfold pad15. rewrite string_length_app, length_repeat_string. simpl. lia.
Qed.

(** Over empty tables every statement of the program yields no row. *)
Lemma eval_statement_empty (q : statement) (age_ms : clock) :
  eval_statement q age_ms empty_database = [].
Proof. destruct q; reflexivity. Qed.

(** C7.  For an empty result sequence the renderer prints the title banner
    and the line "No results found.", and nothing else: no header, no
    separator, no row, no count.  This is what every report prints over
    empty tables, where each of its statements yields no row. *)
Theorem print_results_empty (title : string) (w : world) :
  print_results [] title w
  = (Returns tt,
     writes [Printed (nl +:+ banner); Printed title; Printed banner;
             Printed "No results found."] w)
  ∧ ∀ q, tables w = empty_database → conn w = Held →
         (execute_query q ≫= λ results, print_results results title) w
         = (Returns tt,
            writes [Printed (nl +:+ banner); Printed title; Printed banner;
                    Printed "No results found."] (log_statement q w)).
Proof.
  split; [reflexivity|]. intros q Hdb Hconn.
  unfold mbind at 1. unfold M_bind, execute_query, mbind, M_bind, cursor.
  rewrite Hconn. simpl. rewrite Hdb, eval_statement_empty. reflexivity.
Qed.

Lemma print_results_empty_witness :
  (execute_query SelectActive ≫= λ results, print_results results "Active Complaints")
    (world_of empty_database [])
  = (Returns tt,
     writes [Printed (nl +:+ banner); Printed "Active Complaints"; Printed banner;
             Printed "No results found."]
       (log_statement SelectActive (world_of empty_database []))).
Proof.
  apply (proj2 (print_results_empty "Active Complaints" (world_of empty_database []))
           SelectActive eq_refl eq_refl).
Defined.

(** C8.  For a non-empty result sequence whose rows have the columns of
    the first one, the renderer prints the banner, a header with the column
    names in their order, a separator as long as the header, one line per
    row, in order, and a last line with the number of rows.  Every name and
    value is followed by spaces up to 15 characters and is never cut. *)
Theorem print_results_table (first : row) (rest : list row) (title : string)
    (w : world) :
  uniform first (first :: rest) →
  print_results (first :: rest) title w
  = (Returns tt,
     writes ([Printed (nl +:+ banner); Printed title; Printed banner;
              Printed (header_line first);
              Printed (repeat_string "-" (String.length (header_line first)))]
             ++ ((Printed ∘ row_line) <$> first :: rest)
             ++ [Printed (nl +:+ "Total records: " +:+ pretty (length (first :: rest)))])
            w)
  ∧ ∀ s, (∃ n, pad15 s = s +:+ repeat_string " " n)
         ∧ String.length (pad15 s) = (String.length s `max` 15)%nat.
Proof.
  intros [Hnd Hall]. split.
  - unfold print_results. rewrite !bind_print. unfold mbind, M_bind.
    rewrite for_each_print_row by done.
    rewrite <-!writes_app. reflexivity.
  - intros s. split; [by eexists|apply pad15_length].
Qed.

(** ** Computations that finish *)

Import ComplaintsCLI.

Lemma tame_ret {A} (a : A) : tame (mret a : M A).
Proof. intros w. simpl. split; [done|lia]. Qed.

Lemma tame_bind {A B} (m : M A) (f : A → M B) :
  tame m → (∀ a, tame (f a)) → tame (m ≫= f).
Proof.
  intros Hm Hf w. unfold mbind, M_bind. destruct (Hm w) as [Hm1 Hm2].
  destruct (m w) as [[a|e|] w1]; simpl in *; [|done|done].
  destruct (Hf a w1). split; [done|lia].
Qed.

Lemma tame_print s : tame (print s).
Proof. intros w. simpl. split; [done|lia]. Qed.

Lemma tame_input s : tame (input s).
Proof.
  intros w. unfold input. simpl.
  destruct (stdin w) as [|[l|] rest] eqn:E; simpl; rewrite ?E; simpl; split;
    (done || lia).
Qed.

Lemma tame_lift {A} (r : result A) : tame (lift r).
Proof. intros w. destruct r; simpl; split; (done || lia). Qed.

Lemma tame_try_except {A} (body : M A) (handler : exn → option (M A)) :
  tame body → (∀ e h, handler e = Some h → tame h) → tame (try_except body handler).
Proof.
  intros Hb Hh w. unfold try_except. destruct (Hb w) as [Hb1 Hb2].
  destruct (body w) as [[a|e|] w1]; simpl in *; [done| |done].
  destruct (handler e) as [h|] eqn:E; [|done].
  destruct (Hh e h E w1). split; [done|lia].
Qed.

Lemma tame_except_ValueError (body h : M unit) :
  tame body → tame h → tame (try_except body (except_ValueError h)).
Proof.
  intros Hb Hh. apply tame_try_except; [done|].
  intros e h' Heq. destruct e; simplify_eq/=. done.
Qed.

Lemma tame_for_each {A} (l : list A) (body : A → M unit) :
  (∀ x, tame (body x)) → tame (for_each l body).
Proof.
  intros Hb. induction l as [|x l IH]; simpl; [apply tame_ret|].
  apply tame_bind; [apply Hb|done].
Qed.

Lemma tame_connect : tame connect.
Proof. intros w. unfold connect. destruct (reachable w); simpl; split; (done || lia). Qed.

Lemma tame_disconnect : tame disconnect.
Proof. intros w. unfold disconnect. destruct (conn w); simpl; split; (done || lia). Qed.

Lemma tame_cursor : tame cursor.
Proof. intros w. unfold cursor. destruct (conn w); simpl; split; (done || lia). Qed.

Lemma tame_commit : tame commit.
Proof. intros w. simpl. split; [done|lia]. Qed.

Lemma tame_create_tables : tame create_tables.
Proof. apply tame_bind; [apply tame_cursor|intros _; apply tame_commit]. Qed.

Lemma tame_load_csv_data csv : tame (load_csv_data csv).
Proof.
  unfold load_csv_data.
  apply tame_bind; [apply tame_cursor|intros _].
  apply tame_bind; [|intros _; apply tame_commit].
  intros w. destruct (load_records csv (files w) (tables w)) as [db [e|]];
    simpl; split; (done || lia).
Qed.

Lemma tame_execute_query q : tame (execute_query q).
Proof.
  apply tame_bind; [apply tame_cursor|intros _]. intros w. simpl. split; [done|lia].
Qed.

Lemma tame_print_row columns r : tame (print_row columns r).
Proof. apply tame_bind; [apply tame_lift|intros ?; apply tame_print]. Qed.

Create HintDb tame.

#[local] Hint Resolve tame_ret tame_print tame_input tame_lift tame_for_each
  tame_connect tame_disconnect tame_cursor tame_commit tame_create_tables
  tame_load_csv_data tame_execute_query tame_print_row
  tame_except_ValueError : tame.

Ltac tame_tac :=
  repeat first
    [ progress intros
    | solve [auto with tame]
    | apply tame_bind
    | apply tame_except_ValueError
    | apply tame_for_each
    | match goal with
      | |- tame (match ?x with _ => _ end) => destruct x
      | |- tame (if ?b then _ else _) => destruct b
      end ].

Lemma tame_print_results results title : tame (print_results results title).
Proof. unfold print_results. tame_tac. Qed.

#[local] Hint Resolve tame_print_results : tame.

Lemma tame_initialize_database : tame initialize_database.
Proof. unfold initialize_database. tame_tac. Qed.

Lemma tame_show_menu : tame show_menu.
Proof. unfold show_menu. tame_tac. Qed.

Lemma tame_dispatch choice : tame (dispatch choice).
Proof.
  unfold dispatch, query_1_active_complaints, query_2_complaints_by_category,
    query_3_complaints_by_ward, query_4_resident_history,
    query_5_resolution_statistics, query_6_overdue_complaints,
    query_7_complaints_by_status, query_8_top_complaint_categories,
    query_9_ward_performance, query_10_complaint_timeline, print_detail.
  tame_tac.
Qed.

(** ** The menu loop and the session *)

Lemma bind_finishes {A B} (m : M A) (k : A → M B) (w : world) :
  tame m →
  (∀ a w1, (length (stdin w1) ≤ length (stdin w))%nat → (k a w1).1 ≠ Unfinished) →
  ((m ≫= k) w).1 ≠ Unfinished.
Proof.
  intros Hm Hk. unfold mbind, M_bind. destruct (Hm w) as [Hm1 Hm2].
  destruct (m w) as [[a|e|] w1]; simpl in *; [by apply Hk|done|done].
Qed.

Lemma bind_input_finishes {B} (prompt : string) (k : string → M B) (w : world) :
  (∀ l w1, (length (stdin w1) < length (stdin w))%nat → (k l w1).1 ≠ Unfinished) →
  ((input prompt ≫= k) w).1 ≠ Unfinished.
Proof.
  intros Hk. unfold mbind, M_bind, input. simpl.
  destruct (stdin w) as [|[l|] rest] eqn:E; simpl; [done| |done].
  apply Hk. simpl. lia.
Qed.

(** A loop allowed more turns than there are events to read finishes. *)
Lemma menu_loop_finishes (steps : nat) (w : world) :
  (length (stdin w) < steps)%nat → (menu_loop steps w).1 ≠ Unfinished.
Proof.
  revert w. induction steps as [|steps IH]; intros w Hlen; [lia|].
  simpl. apply bind_finishes; [apply tame_show_menu|]. intros _ w1 H1.
  apply bind_input_finishes. intros l w2 H2.
  destruct (decide (strip l = "0")); [done|].
  apply bind_finishes; [apply tame_dispatch|]. intros _ w3 H3.
  apply bind_finishes; [apply tame_input|]. intros _ w4 H4.
  apply IH. lia.
Qed.

Lemma run_handler_catches (body : M unit) (w : world) :
  (body w).1 ≠ Unfinished →
  (try_except body run_handler w).1 = Returns tt.
Proof.
  unfold try_except. destruct (body w) as [[[]|e|] w1]; simpl; [done| |done].
  intros _. by destruct e.
Qed.

Lemma disconnect_releases (w : world) :
  ∃ w', disconnect w = (Returns tt, w')
        ∧ conn w' ≠ Held
        ∧ (conn w = Held → conn w' = Released)
        ∧ (conn w ≠ Held → w' = w)
        ∧ disconnect w' = (Returns tt, w').
Proof.
  unfold disconnect. destruct (conn w) eqn:E.
  - exists w. rewrite E. by repeat split.
  - exists (set_conn Released w). simpl. by repeat split.
  - exists w. rewrite E. by repeat split.
Qed.

(** C9.  [disconnect] never raises: it releases the session when one is
    held and otherwise changes nothing, also when no connection was ever
    made and when it is called again.  A run of the CLI, whatever the files,
    the tables and the input, ends by returning, and with no session held:
    the [finally] clause has released it on the normal exit, on an
    interrupt and on an error. *)
Theorem session_released (w : world) :
  (∃ w', disconnect w = (Returns tt, w')
         ∧ conn w' ≠ Held
         ∧ (conn w = Held → conn w' = Released)
         ∧ (conn w ≠ Held → w' = w)
         ∧ disconnect w' = (Returns tt, w'))
  ∧ (∃ w', run w = (Returns tt, w') ∧ conn w' ≠ Held).
Proof.
  split; [apply disconnect_releases|].
  unfold run, run_for. rewrite bind_print.
  set (w0 := write _ w). unfold try_finally.
  set (body := try_except _ run_handler).
  assert ((body w0).1 = Returns tt) as Hbody.
  { apply run_handler_catches.
    apply bind_finishes; [apply tame_initialize_database|].
    intros _ w1 H1. apply menu_loop_finishes. simpl in H1. lia. }
  destruct (body w0) as [r w1]. simpl in Hbody. subst r.
  destruct (disconnect_releases w1) as (w' & -> & Hc & _).
  by exists w'.
Qed.

(** ** What the reports print *)

Lemma print_results_output (results : list row) (title : string) (w : world) :
  uniform_results results →
  print_results results title w = (Returns tt, writes (table_output results title) w).
Proof.
  destruct results as [|first rest]; [done|]. intros [Hnd Hall].
  unfold print_results. rewrite !bind_print. unfold mbind, M_bind.
  rewrite for_each_print_row by done.
  unfold table_output. rewrite <-!writes_app. reflexivity.
Qed.

Lemma uniform_results_fmap {A} (f : A → row) (keys : list string) (l : list A) :
  NoDup (lower_string <$> keys) → (∀ x, row_keys (f x) = keys) →
  uniform_results (f <$> l).
Proof.
  intros Hnd Hkeys. destruct l as [|x l]; [done|].
  change (uniform (f x) (f <$> x :: l)). split; [by rewrite Hkeys|].
  apply Forall_forall. intros r (y & -> & _)%list_elem_of_fmap.
  by rewrite !Hkeys.
Qed.

Ltac solve_uniform keys :=
  apply (uniform_results_fmap _ keys);
  [apply (bool_decide_unpack _); vm_compute; exact I | intros ?; reflexivity].



Lemma filter_all {A} (P : A → Prop) `{!∀ x, Decision (P x)} (l : list A) :
  (∀ x, x ∈ l → P x) → filter P l = l.
Proof.
  induction l as [|x l IH]; intros Hall; [done|].
  rewrite filter_cons_True by (apply Hall; left). f_equal.
  apply IH. intros y Hy. apply Hall. by right.
Qed.

(** A filter on the source of a comprehension can be applied first. *)
Lemma filter_bind_source {A B} (P : B → Prop) (Q : A → Prop)
    `{!∀ y, Decision (P y)} `{!∀ x, Decision (Q x)} (f : A → list B) (l : list A) :
  (∀ x y, y ∈ f x → (P y ↔ Q x)) → filter P (l ≫= f) = filter Q l ≫= f.
Proof.
  intros HPQ. induction l as [|x l IH]; [done|].
  rewrite bind_cons, filter_app, IH. destruct (decide (Q x)) as [Hq|Hq].
  - rewrite filter_cons_True by done. rewrite bind_cons. f_equal.
    apply filter_all. intros y Hy. by apply (HPQ x y).
  - rewrite filter_cons_False by done.
    rewrite (filter_none P (f x)); [done|]. intros y Hy HP. by apply Hq, (HPQ x y).
Qed.

Lemma complaint_details_lookup db p :
  complaint_details db p
  = match numeric_affinity p with
    | VInt k =>
        match complaints db !! k with
        | Some c =>
            match deref (residents db) (c_resident_id c),
                  deref (service_categories db) (c_category_id c) with
            | Some r, Some sc => [((k, c), r, sc)]
            | _, _ => []
            end
        | None => []
        end
    | VText _ => []
    end.
Proof.
  unfold complaint_details.
  rewrite (filter_bind_source _ (λ c : Z * complaint, VInt c.1 = numeric_affinity p)).
  - rewrite (list_filter_iff _ (λ c : Z * complaint, numeric_affinity p = VInt c.1))
      by (intros ?; split; congruence).
    rewrite filter_scan_key. destruct (numeric_affinity p) as [k|]; [|done].
    destruct (complaints db !! k) as [c|]; [|done].
    rewrite bind_singleton. simpl.
    rewrite join_residents_deref, join_categories_deref.
    destruct (deref (residents db) _) as [r|]; [|done].
    simpl. rewrite app_nil_r.
    destruct (deref (service_categories db) _) as [sc|]; done.
  - intros c y Hy.
    apply list_elem_of_bind in Hy as (r & Hy & _).
    apply list_elem_of_bind in Hy as (sc & Hy & _).
    apply list_elem_of_singleton in Hy as ->. done.
Qed.

Lemma complaint_timeline_events db p k :
  numeric_affinity p = VInt k →
  StronglySorted (asc status_date) (complaint_timeline db p)
  ∧ complaint_timeline db p ≡ₚ events_of db k.
Proof.
  intros Hp. unfold complaint_timeline, events_of. rewrite Hp. split.
  - apply order_by_sorted; apply _.
  - apply order_by_perm.
Qed.

Lemma run_input (prompt l : string) (rest : list event) (w : world) :
  stdin w = Line l :: rest →
  input prompt w = (Returns l, set_stdin rest (write (Prompted prompt) w)).
Proof. intros Hin. unfold input. simpl. by rewrite Hin. Qed.

Lemma run_execute_query (q : statement) (w : world) :
  conn w = Held →
  execute_query q w = (Returns (eval_statement q (now w) (tables w)), log_statement q w).
Proof. intros Hc. unfold execute_query, mbind, M_bind, cursor. by rewrite Hc. Qed.

Lemma run_bind {A B} (m : M A) (k : A → M B) (w w1 : world) (a : A) :
  m w = (Returns a, w1) → (m ≫= k) w = k a w1.
Proof. intros Hm. unfold mbind, M_bind. by rewrite Hm. Qed.

Lemma run_try_returns {A} (body : M A) (handler : exn → option (M A)) (w w1 : world) a :
  body w = (Returns a, w1) → try_except body handler w = (Returns a, w1).
Proof. intros Hb. unfold try_except. by rewrite Hb. Qed.



Ltac exec_query H :=
  match goal with
  | |- context [(execute_query ?q ≫= ?k) ?w0] =>
      rewrite (run_bind _ k w0 _ _ (run_execute_query q w0 H))
  end.


(** ** Report 4 *)





(** ** Non-numeric parameters *)

(** C6 (the code departs from it).  With the non-numeric line "abc" read
    as the ward of report 3, and as the complaint id of report 10, no
    exception is raised and the [except ValueError] clause is not entered:
    the query is run with the text, and the output is an empty table, or
    "No complaint found", not the message for an invalid number. *)
Theorem non_numeric_parameter_is_queried :
  query_3_complaints_by_ward (world_of scenario_B ["abc"])
  = (Returns tt,
     {| reachable := true; files := ∅; now := no_clock; file_db := scenario_B;
        conn := Held; tables := scenario_B; stdin := [];
        stdout := [Prompted "Enter ward number: "; Printed (nl +:+ banner);
                   Printed "Complaints for Ward abc"; Printed banner;
                   Printed "No results found."];
        executed := [SelectByWard "abc"] |})
  ∧ query_10_complaint_timeline (world_of scenario_B ["abc"])
    = (Returns tt,
       {| reachable := true; files := ∅; now := no_clock; file_db := scenario_B;
          conn := Held; tables := scenario_B; stdin := [];
          stdout := [Prompted "Enter complaint ID: ";
                     Printed "No complaint found with ID abc"];
          executed := [SelectComplaintDetail "abc"] |}).
Proof. split; vm_compute; reflexivity. Qed.

(** Whatever line is read as the ward, report 3 runs the query with it and
    prints its rows. *)
Lemma ward_report_any_line (w : world) (p : string) (rest : list event) :
  conn w = Held → stdin w = Line p :: rest →
  query_3_complaints_by_ward w
  = (Returns tt,
     writes (table_output (sql_3_complaints_by_ward (tables w) p)
               ("Complaints for Ward " +:+ p))
       (log_statement (SelectByWard p)
          (set_stdin rest (write (Prompted "Enter ward number: ") w)))).
Proof.
  intros Hconn Hin. unfold query_3_complaints_by_ward.
  apply run_try_returns.
  rewrite (run_bind _ _ _ _ _ (run_input _ _ _ _ Hin)).
  exec_query Hconn.
  change (eval_statement (SelectByWard p) _ _)
    with (sql_3_complaints_by_ward (tables w) p).
  rewrite print_results_output; [done|].
  unfold sql_3_complaints_by_ward.
  solve_uniform ["complaint_id"; "resident_name"; "category_name"; "title";
                 "submission_date"; "status"].
Qed.

(** ** Witnesses and examples *)


Lemma print_results_table_witness :
  uniform [("status", CText "Submitted"); ("status_date", CText "2024-01-01")]
          sample_rows
  ∧ stdout (print_results sample_rows "Timeline" (world_of scenario_B [])).2
    = [Printed (nl +:+ banner); Printed "Timeline"; Printed banner;
       Printed "status          | status_date    ";
       Printed "---------------------------------";
       Printed "Submitted       | 2024-01-01     ";
       Printed "Waiting for parts | 2024-01-05     ";
       Printed (nl +:+ "Total records: 2")].
Proof.
  assert (uniform [("status", CText "Submitted"); ("status_date", CText "2024-01-01")]
            sample_rows) as Hu
    by (apply (bool_decide_unpack _); vm_compute; exact I).
  split; [exact Hu|].
  destruct (print_results_table _ _ "Timeline" (world_of scenario_B []) Hu)
    as [Heq _].
  apply (f_equal (λ x, stdout x.2)) in Heq.
  etransitivity; [exact Heq|]. vm_compute. reflexivity.
Defined.

(** The three ways a run ends: the choice 0, an interrupt, and an error
    (here the end of the input).  Each time the session is released. *)
Example run_exit_paths :
  let exit := run (fresh_world [Line "0"]) in
  let interrupt := run (fresh_world [Line "1"; Interrupt]) in
  let error := run (fresh_world [Line "5"]) in
  (exit.1 = Returns tt ∧ conn exit.2 = Released
   ∧ last (stdout exit.2) = Some (Printed "Goodbye!"))
  ∧ (interrupt.1 = Returns tt ∧ conn interrupt.2 = Released
     ∧ last (stdout interrupt.2) = Some (Printed (nl +:+ nl +:+ "Exiting...")))
  ∧ (error.1 = Returns tt ∧ conn error.2 = Released
     ∧ last (stdout error.2)
       = Some (Printed "An error occurred: EOF when reading a line")).
Proof. vm_compute. repeat split. Qed.

(** A database file that cannot be opened: no session is ever held. *)
Example run_unreachable :
  let w := {| reachable := false; files := files_B; now := no_clock;
              file_db := empty_database; conn := NoSession;
              tables := empty_database; stdin := [Line "0"]; stdout := [];
              executed := [] |} in
  (run w).1 = Returns tt ∧ conn (run w).2 = NoSession
  ∧ last (stdout (run w).2)
    = Some (Printed "An error occurred: unable to open database file").
Proof. vm_compute. repeat split. Qed.

(** The statistics of scenario B with its dangling complaint. *)
Example statistics_example :
  sql_5_resolution_statistics scenario_dangling
  = [[("category_name", CText "Pothole"); ("total_complaints", CInt 2);
      ("resolved", CInt 0); ("in_progress", CInt 1); ("submitted", CInt 1);
      ("resolution_rate", CReal2 0)]]
  ∧ sql_9_ward_performance scenario_dangling
    = [[("ward", CInt 3); ("total_complaints", CInt 1);
        ("resolved", CInt 0); ("in_progress", CInt 1); ("submitted", CInt 0);
        ("resolution_rate", CReal2 0)]].
Proof. split; vm_compute; reflexivity. Qed.

(** * Further properties *)

(** ** Ingestion *)

Lemma missing_source csv_files fs name :
  missing csv_files fs name → source csv_files fs name = [].
Proof.
  unfold missing, source. destruct (csv_files !! name) as [path|]; [|done].
  by intros ->.
Qed.

(** A source that is skipped leaves its table as it was, whatever happens
    to the other sources; when the four sources are skipped the ingestion
    changes nothing and raises nothing. *)
Theorem load_records_skips_missing (csv_files : gmap string string)
    (fs : file_system) (db : database) :
  let out := load_records csv_files fs db in
  (missing csv_files fs "residents" → residents out.1 = residents db)
  ∧ (missing csv_files fs "categories" →
       service_categories out.1 = service_categories db)
  ∧ (missing csv_files fs "complaints" → complaints out.1 = complaints db)
  ∧ (missing csv_files fs "status_logs" → status_logs out.1 = status_logs db)
  ∧ (missing csv_files fs "residents" → missing csv_files fs "categories" →
     missing csv_files fs "complaints" → missing csv_files fs "status_logs" →
     out = (db, None)).
Proof.
  unfold load_records.
  destruct (insert_rows insert_resident _ _) as [t1 e1] eqn:E1.
  destruct (insert_rows insert_category _ _) as [t2 e2] eqn:E2.
  destruct (insert_rows insert_complaint _ _) as [t3 e3] eqn:E3.
  destruct (insert_rows insert_status_log _ _) as [t4 e4] eqn:E4.
  simpl in *.
  repeat split.
  - intros Hm. rewrite (missing_source _ _ _ Hm) in E1. simplify_eq/=.
    by destruct e2, e3.
  - intros Hm. rewrite (missing_source _ _ _ Hm) in E2. simplify_eq/=.
    by destruct e1, e3.
  - intros Hm. rewrite (missing_source _ _ _ Hm) in E3. simplify_eq/=.
    by destruct e1, e2.
  - intros Hm. rewrite (missing_source _ _ _ Hm) in E4. simplify_eq/=.
    by destruct e1, e2, e3.
  - intros H1 H2 H3 H4.
    rewrite (missing_source _ _ _ H1) in E1. rewrite (missing_source _ _ _ H2) in E2.
    rewrite (missing_source _ _ _ H3) in E3. rewrite (missing_source _ _ _ H4) in E4.
    simplify_eq/=. by destruct db.
Qed.

Lemma load_records_skips_missing_witness :
  missing ComplaintsCLI.csv_files files_unkeyed "residents"
  ∧ residents (load_records ComplaintsCLI.csv_files files_unkeyed scenario_B).1
    = residents scenario_B.
Proof.
  assert (missing ComplaintsCLI.csv_files files_unkeyed "residents") as Hm
    by (vm_compute; reflexivity).
  split; [exact Hm|].
  exact (proj1 (load_records_skips_missing ComplaintsCLI.csv_files files_unkeyed
                  scenario_B) Hm).
Defined.

Lemma insert_rows_app {A} (ins : csv_row → gmap Z A → result (gmap Z A))
    (pre post : list csv_row) (t t' : gmap Z A) :
  insert_rows ins pre t = (t', None) →
  insert_rows ins (pre ++ post) t = insert_rows ins post t'.
Proof.
  revert t. induction pre as [|row pre IH]; intros t; simpl.
  - by intros [= ->].
  - destruct (ins row t) as [t2|e]; [apply IH|done].
Qed.

(** The ingestion stops at the first record the store refuses: the records
    before it are written, the records after it and the later sources are
    not read.  Stated for a failure in the first source and in the last. *)
Theorem load_records_stops_at_failure (csv_files : gmap string string)
    (fs : file_system) (db : database) (pre post : list csv_row) (bad : csv_row)
    (e : exn) :
  (∀ t, source csv_files fs "residents" = pre ++ bad :: post →
        insert_rows insert_resident pre (residents db) = (t, None) →
        insert_resident bad t = Raise e →
        load_records csv_files fs db
        = (Database t (service_categories db) (complaints db) (status_logs db),
           Some e))
  ∧ (∀ r sc c l,
        insert_rows insert_resident (source csv_files fs "residents") (residents db)
        = (r, None) →
        insert_rows insert_category (source csv_files fs "categories")
          (service_categories db) = (sc, None) →
        insert_rows insert_complaint (source csv_files fs "complaints")
          (complaints db) = (c, None) →
        source csv_files fs "status_logs" = pre ++ bad :: post →
        insert_rows insert_status_log pre (status_logs db) = (l, None) →
        insert_status_log bad l = Raise e →
        load_records csv_files fs db = (Database r sc c l, Some e)).
Proof.
  split.
  - intros t Hsrc Hpre Hbad. unfold load_records.
    rewrite Hsrc, (insert_rows_app _ _ _ _ _ Hpre). simpl. by rewrite Hbad.
  - intros r sc c l Hr Hsc Hc Hsrc Hpre Hbad. unfold load_records.
    rewrite Hr. simpl. rewrite Hsc. simpl. rewrite Hc. simpl.
    rewrite Hsrc, (insert_rows_app _ _ _ _ _ Hpre). simpl. by rewrite Hbad.
Qed.

Lemma load_records_stops_at_failure_witness :
  load_records ComplaintsCLI.csv_files files_bad_resident empty_database
  = (Database {[ 1 := Resident "A" "B" (VInt 3) (Some "") (Some "") ]} ∅ ∅ ∅,
     Some (IntegrityError "NOT NULL constraint failed: residents.first_name")).
Proof.
  apply (proj1 (load_records_stops_at_failure ComplaintsCLI.csv_files
                  files_bad_resident empty_database [resident_record_1]
                  [resident_record_3] resident_record_short _)).
  - vm_compute. reflexivity.
  - vm_compute. reflexivity.
  - vm_compute. reflexivity.
Defined.


Lemma lookup_foldl_put_notin {A} (kvs : list (Z * A)) (t : gmap Z A) (k : Z) :
  k ∉ kvs.*1 → foldl put t kvs !! k = t !! k.
Proof.
  revert t. induction kvs as [|[k' v] kvs IH]; intros t Hk; [done|].
  rewrite fmap_cons in Hk. apply not_elem_of_cons in Hk as [Hne Hk].
  simpl. rewrite IH by done. unfold put. simpl. by rewrite lookup_insert_ne.
Qed.

Lemma lookup_foldl_put_last {A} (pre post : list (Z * A)) (t : gmap Z A) k v :
  k ∉ post.*1 → foldl put t (pre ++ (k, v) :: post) !! k = Some v.
Proof.
  intros Hk. rewrite foldl_app. simpl. rewrite lookup_foldl_put_notin by done.
  unfold put. simpl. by rewrite lookup_insert_eq.
Qed.

Lemma converted_keys {A} (conv : csv_row → result (Z * A)) (rows : list csv_row) k :
  Forall (λ row, record_key conv row ≠ Some k) rows →
  k ∉ (converted conv rows).1.*1.
Proof.
  induction 1 as [|row rows Hrow Hrows IH]; simpl; [apply not_elem_of_nil|].
  unfold record_key in Hrow. destruct (conv row) as [kv|e]; simpl.
  - apply not_elem_of_cons. split; [congruence|done].
  - apply not_elem_of_nil.
Qed.

Lemma converted_split {A} (conv : csv_row → result (Z * A))
    (pre post : list csv_row) (row : csv_row) (kv : Z * A) :
  (converted conv (pre ++ row :: post)).2 = None → conv row = Ok kv →
  (converted conv (pre ++ row :: post)).1
  = (converted conv pre).1 ++ kv :: (converted conv post).1.
Proof.
  intros Hnone Hrow. induction pre as [|r pre IH]; simpl in *.
  - by rewrite Hrow.
  - destruct (conv r) as [kv'|e]; simpl in *; [|done]. by rewrite IH.
Qed.

Lemma last_wins_keyed {A} (ins : csv_row → gmap Z A → result (gmap Z A))
    (conv : csv_row → result (Z * A)) (id_column : string) :
  (∀ row t, keyed id_column row → ins row t = put t <$> conv row) →
  last_wins ins conv id_column.
Proof.
  intros Hins rows t t1 Hk Hrun.
  rewrite (insert_rows_converted ins conv _ Hins) in Hrun by done.
  injection Hrun as <- Hnone. split.
  - intros k Hnot. apply lookup_foldl_put_notin. by apply converted_keys.
  - intros pre row post k v -> Hrow Hpost.
    rewrite (converted_split _ _ _ _ _ Hnone Hrow).
    apply lookup_foldl_put_last. by apply converted_keys.
Qed.

(** Insert-or-replace, for the four tables: over records that all carry an
    identity, an ingestion that goes through leaves under each key the row
    of the last record with that key (a later record overwrites an earlier
    one, and what the table held), and does not touch the rows whose key no
    record has. *)
Theorem insert_rows_last_wins :
  last_wins insert_resident resident_of_record "resident_id"
  ∧ last_wins insert_category category_of_record "category_id"
  ∧ last_wins insert_complaint complaint_of_record "complaint_id"
  ∧ last_wins insert_status_log status_log_of_record "log_id".
Proof.
  split; [|split; [|split]].
  - apply last_wins_keyed. intros. by apply insert_resident_keyed.
  - apply last_wins_keyed. intros. by apply insert_category_keyed.
  - apply last_wins_keyed. intros. by apply insert_complaint_keyed.
  - apply last_wins_keyed. intros. by apply insert_status_log_keyed.
Qed.

Lemma insert_rows_last_wins_witness :
  ∃ t1, insert_rows insert_category [category_record_old; category_record_new]
          {[ 1 := ServiceCategory "Hole"; 5 := ServiceCategory "Noise" ]}
        = (t1, None)
        ∧ t1 !! 1 = Some (ServiceCategory "Road damage")
        ∧ t1 !! 5 = Some (ServiceCategory "Noise").
Proof.
  destruct (insert_rows insert_category [category_record_old; category_record_new]
              {[ 1 := ServiceCategory "Hole"; 5 := ServiceCategory "Noise" ]})
    as [t1 e] eqn:Hrun.
  assert (e = None) as -> by (vm_compute in Hrun; congruence).
  exists t1. split; [done|].
  destruct insert_rows_last_wins as (_ & Hcat & _).
  assert (Forall (keyed "category_id") [category_record_old; category_record_new])
    as Hk by (apply (bool_decide_unpack _); vm_compute; exact I).
  destruct (Hcat _ _ _ Hk Hrun) as [Hother Hlast].
  split.
  - apply (Hlast [category_record_old] category_record_new [] 1
             (ServiceCategory "Road damage")); [done|vm_compute; reflexivity|].
    constructor.
  - rewrite (Hother 5); [vm_compute; reflexivity|].
    repeat constructor; vm_compute; discriminate.
Defined.

(** ** Start-up *)

Lemma initialize_database_unreachable (w : world) :
  reachable w = false →
  initialize_database w
  = (Raises OperationalError, write (Printed "Initializing database...") w).
Proof.
  intros Hr. unfold initialize_database. rewrite bind_print.
  unfold mbind, M_bind, connect. simpl. by rewrite Hr.
Qed.

Lemma initialize_database_loaded (w : world) (db : database) (e : option exn) :
  reachable w = true →
  load_records csv_files (files w) (file_db w) = (db, e) →
  initialize_database w
  = match e with
    | None =>
        (Returns tt,
         write (Printed "Database initialized successfully!")
           (set_file_db db
              (set_tables db
                 (set_conn Held (write (Printed "Initializing database...") w)))))
    | Some e =>
        (Raises e,
         set_tables db (set_conn Held (write (Printed "Initializing database...") w)))
    end.
Proof.
  intros Hr Hload. unfold initialize_database. rewrite bind_print.
  unfold mbind, M_bind, connect, create_tables, ComplaintsDatabase.load_csv_data,
    mbind, M_bind, cursor, commit.
  simpl. rewrite Hr. simpl. rewrite Hload. by destruct e.
Qed.

(** [initialize_database].  When the database file cannot be opened it
    raises after its first line and no session is made.  Otherwise the
    session is opened on the committed content of the file and the records
    are loaded into it: when the loading goes through, the result is committed
    and the second line is printed; when a record is refused, the exception
    goes up, the session keeps the rows written so far and the file keeps its
    content. *)
Theorem initialize_database_outcome (w : world) :
  let w0 := write (Printed "Initializing database...") w in
  (reachable w = false →
     initialize_database w = (Raises OperationalError, w0))
  ∧ (reachable w = true →
     ∀ db e, load_records csv_files (files w) (file_db w) = (db, e) →
       initialize_database w
       = match e with
         | None =>
             (Returns tt,
              write (Printed "Database initialized successfully!")
                (set_file_db db (set_tables db (set_conn Held w0))))
         | Some e => (Raises e, set_tables db (set_conn Held w0))
         end).
Proof.
  split.
  - apply initialize_database_unreachable.
  - intros Hr db e Hload. by apply initialize_database_loaded.
Qed.

Lemma initialize_database_outcome_witness :
  initialize_database (fresh_world [])
  = (Returns tt,
     {| reachable := true; files := files_B; now := no_clock;
        file_db := (load_records csv_files files_B empty_database).1;
        conn := Held;
        tables := (load_records csv_files files_B empty_database).1;
        stdin := [];
        stdout := [Printed "Initializing database...";
                   Printed "Database initialized successfully!"];
        executed := [] |}).
Proof.
  rewrite (proj2 (initialize_database_outcome (fresh_world [])) eq_refl
             (load_records csv_files files_B empty_database).1 None).
  - reflexivity.
  - vm_compute. reflexivity.
Defined.

Lemma field_error row c e : field row c = Raise e → ingestion_error e.
Proof. unfold field. destruct (row !! c); intros [= <-]; done. Qed.

Lemma insert_or_replace_error {A} (id : option string) (payload : result A)
    (t : gmap Z A) e :
  (∀ e, payload = Raise e → ingestion_error e) →
  insert_or_replace id payload t = Raise e → ingestion_error e.
Proof.
  intros Hp. unfold insert_or_replace, primary_key.
  destruct id as [s|]; [destruct (parse_int s)|]; simpl;
    try (intros [= <-]; done);
    destruct payload as [v|e'] eqn:E; simpl; try done;
    intros [= <-]; by apply Hp.
Qed.

Lemma not_null_error c v e : not_null c v = Raise e → ingestion_error e.
Proof. destruct v; intros [= <-]; done. Qed.

Ltac ingestion_errors :=
  repeat match goal with
  | |- context [field ?row ?c] =>
      let E := fresh "E" in
      destruct (field row c) as [?|?] eqn:E; simpl;
      [|intros [= <-]; by eapply field_error]
  end;
  apply insert_or_replace_error; intros ?;
  repeat match goal with
  | |- context [not_null ?c ?v] =>
      let E := fresh "E" in
      destruct (not_null c v) as [?|?] eqn:E; simpl;
      [|intros [= <-]; by eapply not_null_error]
  end;
  done.

Lemma insert_resident_error row t e :
  insert_resident row t = Raise e → ingestion_error e.
Proof. unfold insert_resident. ingestion_errors. Qed.

Lemma insert_category_error row t e :
  insert_category row t = Raise e → ingestion_error e.
Proof. unfold insert_category. ingestion_errors. Qed.

Lemma insert_complaint_error row t e :
  insert_complaint row t = Raise e → ingestion_error e.
Proof. unfold insert_complaint. ingestion_errors. Qed.

Lemma insert_status_log_error row t e :
  insert_status_log row t = Raise e → ingestion_error e.
Proof. unfold insert_status_log. ingestion_errors. Qed.

Lemma insert_rows_error {A} (ins : csv_row → gmap Z A → result (gmap Z A))
    (rows : list csv_row) (t t' : gmap Z A) (e : exn) :
  (∀ row t e, ins row t = Raise e → ingestion_error e) →
  insert_rows ins rows t = (t', Some e) → ingestion_error e.
Proof.
  intros Hins. revert t. induction rows as [|row rows IH]; intros t; simpl; [done|].
  destruct (ins row t) as [t2|e2] eqn:E; [apply IH|].
  intros [= _ <-]. by eapply Hins.
Qed.

Lemma load_records_error csv fs db db' e :
  load_records csv fs db = (db', Some e) → ingestion_error e.
Proof.
  unfold load_records.
  destruct (insert_rows insert_resident _ _) as [t1 e1] eqn:E1.
  destruct (insert_rows insert_category _ _) as [t2 e2] eqn:E2.
  destruct (insert_rows insert_complaint _ _) as [t3 e3] eqn:E3.
  destruct (insert_rows insert_status_log _ _) as [t4 e4] eqn:E4.
  simpl in *.
  destruct e1 as [e1|].
  { intros [= _ <-]. eapply insert_rows_error; [|exact E1]. apply insert_resident_error. }
  destruct e2 as [e2|].
  { intros [= _ <-]. eapply insert_rows_error; [|exact E2]. apply insert_category_error. }
  destruct e3 as [e3|].
  { intros [= _ <-]. eapply insert_rows_error; [|exact E3]. apply insert_complaint_error. }
  intros [= _ ->]. eapply insert_rows_error; [|exact E4]. apply insert_status_log_error.
Qed.

(** A run whose ingestion is refused.  The exception is caught by the
    [except Exception] clause of [run]: the program prints the message of the
    error and ends, without showing the menu, reading any input or running
    any query; the session is released with nothing committed, so the
    database file keeps the content it had. *)
Theorem run_ingestion_refused (w : world) (db : database) (e : exn) :
  reachable w = true →
  load_records csv_files (files w) (file_db w) = (db, Some e) →
  run w
  = (Returns tt,
     set_conn Released
       (write (Printed ("An error occurred: " +:+ exn_message e))
          (set_tables db
             (set_conn Held
                (writes [Printed "Welcome to the Municipal Complaints Database CLI!";
                         Printed "Initializing database..."] w))))).
Proof.
  intros Hr Hload. pose proof (load_records_error _ _ _ _ _ Hload) as He.
  unfold run, run_for. rewrite bind_print. unfold try_finally, try_except.
  unfold mbind at 1. unfold M_bind at 1.
  rewrite (initialize_database_loaded
             (write (Printed "Welcome to the Municipal Complaints Database CLI!") w)
             db (Some e) Hr Hload).
  destruct e; try done; reflexivity.
Qed.

Lemma run_ingestion_refused_witness :
  let w := {| reachable := true; files := files_bad_id; now := no_clock;
              file_db := scenario_B; conn := NoSession; tables := empty_database;
              stdin := [Line "1"]; stdout := []; executed := [] |} in
  (run w).1 = Returns tt
  ∧ file_db (run w).2 = scenario_B
  ∧ conn (run w).2 = Released
  ∧ stdin (run w).2 = [Line "1"]
  ∧ stdout (run w).2
    = [Printed "Welcome to the Municipal Complaints Database CLI!";
       Printed "Initializing database...";
       Printed "An error occurred: datatype mismatch"].
Proof.
  intros w.
  rewrite (run_ingestion_refused w
             (load_records csv_files files_bad_id scenario_B).1
             (IntegrityError "datatype mismatch") eq_refl);
    [|vm_compute; reflexivity].
  repeat split.
Defined.

(** ** The menu *)

Lemma read_only_ret {A} (a : A) : read_only (mret a : M A).
Proof. intros w. by repeat split. Qed.

Lemma read_only_bind {A B} (m : M A) (f : A → M B) :
  read_only m → (∀ a, read_only (f a)) → read_only (m ≫= f).
Proof.
  intros Hm Hf w. unfold mbind, M_bind. destruct (Hm w) as (H1 & H2 & H3 & H4).
  destruct (m w) as [[a|e|] w1]; simpl in *; [|done|done].
  destruct (Hf a w1) as (G1 & G2 & G3 & G4).
  rewrite G1, G2, G3, G4. done.
Qed.

Lemma read_only_print s : read_only (print s).
Proof. intros w. by repeat split. Qed.

Lemma read_only_input s : read_only (input s).
Proof.
  intros w. unfold input. simpl. destruct (stdin w) as [|[l|] rest]; by repeat split.
Qed.

Lemma read_only_lift {A} (r : result A) : read_only (lift r).
Proof. intros w. destruct r; by repeat split. Qed.

Lemma read_only_try_except {A} (body : M A) (handler : exn → option (M A)) :
  read_only body → (∀ e h, handler e = Some h → read_only h) →
  read_only (try_except body handler).
Proof.
  intros Hb Hh w. unfold try_except. destruct (Hb w) as (H1 & H2 & H3 & H4).
  destruct (body w) as [[a|e|] w1]; simpl in *; [done| |done].
  destruct (handler e) as [h|] eqn:E; [|done].
  destruct (Hh e h E w1) as (G1 & G2 & G3 & G4).
  rewrite G1, G2, G3, G4. done.
Qed.

Lemma read_only_except_ValueError (body h : M unit) :
  read_only body → read_only h → read_only (try_except body (except_ValueError h)).
Proof.
  intros Hb Hh. apply read_only_try_except; [done|].
  intros e h' Heq. destruct e; simplify_eq/=. done.
Qed.

Lemma read_only_for_each {A} (l : list A) (body : A → M unit) :
  (∀ x, read_only (body x)) → read_only (for_each l body).
Proof.
  intros Hb. induction l as [|x l IH]; simpl; [apply read_only_ret|].
  apply read_only_bind; [apply Hb|done].
Qed.

Lemma read_only_execute_query q : read_only (execute_query q).
Proof.
  intros w. unfold execute_query, mbind, M_bind, cursor.
  destruct (conn w) eqn:E; simpl; by repeat split.
Qed.

Lemma read_only_print_row columns r : read_only (print_row columns r).
Proof. apply read_only_bind; [apply read_only_lift|intros ?; apply read_only_print]. Qed.

Create HintDb read_only.

#[local] Hint Resolve read_only_ret read_only_print read_only_input read_only_lift
  read_only_for_each read_only_execute_query read_only_print_row : read_only.

Ltac read_only_tac :=
  repeat first
    [ progress intros
    | solve [auto with read_only]
    | apply read_only_bind
    | apply read_only_except_ValueError
    | apply read_only_for_each
    | match goal with
      | |- read_only (match ?x with _ => _ end) => destruct x
      | |- read_only (if ?b then _ else _) => destruct b
      end ].

Lemma read_only_print_results results title : read_only (print_results results title).
Proof. unfold print_results. read_only_tac. Qed.

#[local] Hint Resolve read_only_print_results : read_only.

Lemma read_only_show_menu : read_only show_menu.
Proof. unfold show_menu. read_only_tac. Qed.

Lemma read_only_dispatch choice : read_only (dispatch choice).
Proof.
  unfold dispatch, query_1_active_complaints, query_2_complaints_by_category,
    query_3_complaints_by_ward, query_4_resident_history,
    query_5_resolution_statistics, query_6_overdue_complaints,
    query_7_complaints_by_status, query_8_top_complaint_categories,
    query_9_ward_performance, query_10_complaint_timeline, print_detail.
  read_only_tac.
Qed.

(** The reports and the menu only read: whatever is chosen and typed, and
    however a report ends, the tables, the database file, the files of the
    directory and the session are after it what they were before; so are
    they after any number of turns of the menu loop. *)
Theorem menu_is_read_only (choice : string) (steps : nat) :
  read_only (dispatch choice) ∧ read_only (menu_loop steps).
Proof.
  split; [apply read_only_dispatch|].
  induction steps as [|steps IH]; [intros w; by repeat split|].
  simpl. apply read_only_bind; [apply read_only_show_menu|intros _].
  apply read_only_bind; [apply read_only_input|intros l].
  destruct (decide (strip l = "0")); [apply read_only_print|].
  apply read_only_bind; [apply read_only_dispatch|intros _].
  apply read_only_bind; [apply read_only_input|intros _]. done.
Qed.

Lemma show_menu_output (w : world) : show_menu w = (Returns tt, writes menu_output w).
Proof. reflexivity. Qed.

Lemma menu_loop_exit (steps : nat) (w : world) (l : string) (rest : list event) :
  stdin w = Line l :: rest → strip l = "0" →
  menu_loop (S steps) w
  = (Returns tt,
     write (Printed "Goodbye!")
       (set_stdin rest
          (write (Prompted (nl +:+ "Enter your choice (0-10): "))
             (writes menu_output w)))).
Proof.
  intros Hin H0. simpl. rewrite (run_bind _ _ _ _ _ (show_menu_output w)).
  rewrite (run_bind _ _ _ _ _ (run_input _ l rest (writes menu_output w) Hin)).
  by rewrite decide_True.
Qed.



(** ** The listings *)







(** ** Report 6 *)

#[global] Instance null_le_total : Total null_le.
Proof. intros [x|] [y|]; simpl; try tauto. lia. Qed.

#[global] Instance null_le_trans : Transitive null_le.
Proof. intros [x|] [y|] [z|]; simpl; try tauto. lia. Qed.

#[global] Instance by_days_old_desc_total age_ms : Total (by_days_old_desc age_ms).
Proof. intros x y. unfold by_days_old_desc. destruct (null_le_total
  (days_old age_ms (j_submission_date x)) (days_old age_ms (j_submission_date y)));
  auto. Qed.

#[global] Instance by_days_old_desc_trans age_ms : Transitive (by_days_old_desc age_ms).
Proof. intros x y z. unfold by_days_old_desc. intros ??. by etrans. Qed.

(** The overdue complaints are active complaints: each has a current
    status other than "Resolved".  Each has an age in whole days, which is at
    least 30 (a complaint between 30 and 31 days old is listed with 30), and
    the rows are ordered by that age, oldest first. *)
Theorem overdue_listing (age_ms : clock) (db : database) :
  (∀ j, j ∈ overdue_complaints age_ms db →
        j ∈ active_complaints db
        ∧ ∃ d, days_old age_ms (j_submission_date j) = Some d ∧ 30 ≤ d)
  ∧ NoDup ((λ j, (j_c j).1) <$> overdue_complaints age_ms db)
  ∧ StronglySorted (by_days_old_desc age_ms) (overdue_complaints age_ms db).
Proof.
  split; [|split].
  - intros j Hj. unfold overdue_complaints in Hj.
    apply elem_of_order_by, list_elem_of_filter in Hj as [[Hs Hold] Hj].
    split; [by apply elem_of_active_complaints|].
    unfold over_30_days in Hold. unfold days_old.
    destruct (age_ms (j_submission_date j)) as [ms|]; [|done].
    eexists. split; [done|]. unfold ms_per_day in *.
    apply Z.quot_le_lower_bound; lia.
  - unfold overdue_complaints.
    apply order_by_fmap_NoDup, filter_fmap_NoDup, full_join_NoDup.
  - unfold overdue_complaints. apply order_by_sorted; apply _.
Qed.

Lemma overdue_listing_witness :
  ∃ j, j ∈ overdue_complaints clock_30_days_and_a_half scenario_B
       ∧ j ∈ active_complaints scenario_B
       ∧ days_old clock_30_days_and_a_half (j_submission_date j) = Some 30.
Proof.
  assert (∃ j, j ∈ overdue_complaints clock_30_days_and_a_half scenario_B) as [j Hj]
    by (vm_compute; eexists; left).
  exists j. split; [done|].
  destruct (proj1 (overdue_listing clock_30_days_and_a_half scenario_B) j Hj)
    as (Hact & d & Hd & _).
  split; [done|]. reflexivity.
Defined.

(** ** Grouped reports *)

Lemma sum_Z_app l1 l2 : sum_Z (l1 ++ l2) = sum_Z l1 + sum_Z l2.
Proof. induction l1 as [|x l1 IH]; simpl; [done|]. rewrite IH. lia. Qed.

Lemma sum_Z_perm l1 l2 : l1 ≡ₚ l2 → sum_Z l1 = sum_Z l2.
Proof. induction 1; simpl; lia. Qed.

Lemma sum_Z_cons x l : sum_Z (x :: l) = x + sum_Z l.
Proof. reflexivity. Qed.

Lemma sum_indicator_absent {K} `{EqDecision K} (ks : list K) (x : K) :
  x ∉ ks → sum_Z ((λ k, if decide (x = k) then 1 else 0) <$> ks) = 0.
Proof.
  induction ks as [|k ks IH]; intros Hx; [done|].
  apply not_elem_of_cons in Hx as [Hne Hx].
  rewrite fmap_cons, sum_Z_cons, decide_False by done. by rewrite IH.
Qed.

Lemma sum_indicator {K} `{EqDecision K} (ks : list K) (x : K) :
  NoDup ks → x ∈ ks →
  sum_Z ((λ k, if decide (x = k) then 1 else 0) <$> ks) = 1.
Proof.
  induction 1 as [|k ks Hk Hnd IH]; intros Hin; [by apply elem_of_nil in Hin|].
  rewrite fmap_cons, sum_Z_cons. destruct (decide (x = k)) as [Heq|Hne].
  - subst k. by rewrite sum_indicator_absent.
  - apply elem_of_cons in Hin as [?|Hin]; [done|]. by rewrite IH.
Qed.

(** The groups of a [GROUP BY] share out the rows: their sizes add up to
    the number of rows. *)
Lemma group_sizes {A K} `{EqDecision K} (key : A → K) (l : list A) (ks : list K) :
  NoDup ks → (∀ x, x ∈ l → key x ∈ ks) →
  sum_Z ((λ k, sql_count (filter (λ x, key x = k) l)) <$> ks) = sql_count l.
Proof.
  intros Hnd. induction l as [|x l IH]; intros Hks.
  - clear. induction ks as [|k ks IHk]; [done|].
    rewrite fmap_cons, sum_Z_cons, IHk. done.
  - assert (sum_Z ((λ k, sql_count (filter (λ y, key y = k) (x :: l))) <$> ks)
            = sum_Z ((λ k, if decide (key x = k) then 1 else 0) <$> ks)
              + sum_Z ((λ k, sql_count (filter (λ y, key y = k) l)) <$> ks)) as ->.
    { clear. induction ks as [|k ks IHk]; [done|].
      rewrite !fmap_cons, !sum_Z_cons, IHk.
      destruct (decide (key x = k)).
      - rewrite filter_cons_True by done. rewrite sql_count_cons. lia.
      - rewrite filter_cons_False by done. lia. }
    rewrite sum_indicator; [|done|apply Hks; left].
    rewrite IH by (intros y Hy; apply Hks; by right).
    by rewrite sql_count_cons.
Qed.

Lemma group_by_sizes {A K} `{EqDecision K} (key : A → K) (l : list A) :
  sum_Z ((λ g : K * list A, sql_count g.2) <$> group_by key l) = sql_count l.
Proof.
  unfold group_by. rewrite <-list_fmap_compose.
  apply group_sizes; [apply NoDup_remove_dups|].
  intros x Hx. apply elem_of_remove_dups, list_elem_of_fmap. by exists x.
Qed.

Lemma group_by_keys {A K} `{EqDecision K} (key : A → K) (l : list A) :
  NoDup (fst <$> group_by key l).
Proof.
  unfold group_by.
  assert (∀ ks : list K,
            fst <$> ((λ k, (k, filter (λ x, key x = k) l)) <$> ks) = ks) as ->.
  { intros ks. induction ks as [|k ks IH]; [done|].
    rewrite !fmap_cons, IH. done. }
  apply NoDup_remove_dups.
Qed.

Lemma length_bind_choice {A B} (P : A → Prop) `{!∀ x, Decision (P x)}
    (f : A → list B) (l : list A) :
  (∀ x, length (f x) = if decide (P x) then 1%nat else 0%nat) →
  length (l ≫= f) = length (filter P l).
Proof.
  intros Hf. induction l as [|x l IH]; [done|].
  rewrite bind_cons, length_app, Hf, IH. destruct (decide (P x)).
  - by rewrite filter_cons_True.
  - by rewrite filter_cons_False.
Qed.

Lemma join_latest_length db cid :
  length (join_latest db cid) = if decide (events_of db cid ≠ []) then 1%nat else 0%nat.
Proof.
  rewrite join_latest_head, partition_rows_events.
  destruct (head (order_by (desc status_date) (events_of db cid))) as [e|] eqn:E.
  - rewrite decide_True; [done|]. intros Hnil. by rewrite Hnil in E.
  - apply head_None, order_by_nil in E. by rewrite decide_False by (by intros ?).
Qed.

Lemma join_categories_length db c :
  length (join_categories db c)
  = if decide (is_Some (deref (service_categories db) (c_category_id c)))
    then 1%nat else 0%nat.
Proof.
  rewrite join_categories_deref.
  destruct (deref (service_categories db) (c_category_id c)) as [sc|].
  - by rewrite decide_True by by eexists.
  - by rewrite decide_False by (by intros [? ?]).
Qed.

Lemma join_residents_length db c :
  length (join_residents db c)
  = if decide (is_Some (deref (residents db) (c_resident_id c)))
    then 1%nat else 0%nat.
Proof.
  rewrite join_residents_deref.
  destruct (deref (residents db) (c_resident_id c)) as [r|].
  - by rewrite decide_True by by eexists.
  - by rewrite decide_False by (by intros [? ?]).
Qed.

Lemma case_sum_bounds (s : string) (g : list sl_row) :
  0 ≤ sql_sum (case_status s) g ≤ sql_count g.
Proof.
  induction g as [|sl g IH]; [done|].
  rewrite sql_sum_cons, sql_count_cons. unfold case_status at 1 3.
  case_decide; lia.
Qed.

Lemma rate_cell_bounds (n d : Z) :
  0 ≤ n ≤ d → 0 ≤ hundredths_of (rate_cell n d) ≤ 10000.
Proof.
  intros Hn. unfold rate_cell. case_decide; [done|]. simpl.
  split.
  - apply Z.div_pos; lia.
  - cut ((2 * (n * 10000) + d) `div` (2 * d) < 10001); [lia|].
    apply Z.div_lt_upper_bound; lia.
Qed.

(** The rows of a grouped statistics report, before they are ordered. *)
Lemma grouped_stats_totals {A K} `{EqDecision K} (key : A → K) (sl : A → sl_row)
    (l : list A) :
  let rows := (λ g : K * list A, (g.1, stats_of (sl <$> g.2))) <$> group_by key l in
  NoDup (fst <$> rows)
  ∧ sum_Z ((λ g : K * stats, total_complaints g.2) <$> rows) = sql_count l
  ∧ ∀ g, g ∈ rows → 0 ≤ hundredths_of (resolution_rate g.2) ≤ 10000.
Proof.
  intros rows. unfold rows. split; [|split].
  - rewrite <-list_fmap_compose. exact (group_by_keys key l).
  - rewrite <-list_fmap_compose. rewrite <-(group_by_sizes key l).
    f_equal. apply list_fmap_ext. intros i g _. simpl.
    unfold sql_count. by rewrite length_fmap.
  - intros g ([k m] & -> & _)%list_elem_of_fmap. simpl.
    apply rate_cell_bounds, case_sum_bounds.
Qed.

Lemma length_bind_singleton {A B} (g : A → B) (l : list A) :
  length (l ≫= λ x, [g x]) = length l.
Proof. induction l as [|x l IH]; [done|]. rewrite bind_cons. simpl. by rewrite IH. Qed.

Lemma counted_by_category_length db (c : Z * complaint) :
  length (sc ← join_categories db c.2; sl ← join_latest db c.1; [(sc, sl)])
  = if decide (has_category db c ∧ has_status db c) then 1%nat else 0%nat.
Proof.
  rewrite join_categories_deref.
  destruct (decide (has_category db c ∧ has_status db c)) as [[[x Hx] Hs]|Hn].
  - rewrite Hx. simpl.
    rewrite app_nil_r, length_bind_singleton, join_latest_length.
    by rewrite decide_True.
  - destruct (deref (service_categories db) (c_category_id c.2)) as [x|] eqn:Hx; [|done]. simpl.
    rewrite app_nil_r, length_bind_singleton, join_latest_length.
    rewrite decide_False; [done|]. intros Hs. apply Hn. split; [|done].
    unfold has_category. rewrite Hx. by eexists.
Qed.

Lemma counted_by_ward_length db (c : Z * complaint) :
  length (r ← join_residents db c.2; sl ← join_latest db c.1; [(ward r.2, sl)])
  = if decide (has_resident db c ∧ has_status db c) then 1%nat else 0%nat.
Proof.
  rewrite join_residents_deref.
  destruct (decide (has_resident db c ∧ has_status db c)) as [[[x Hx] Hs]|Hn].
  - rewrite Hx. simpl.
    rewrite app_nil_r, length_bind_singleton, join_latest_length.
    by rewrite decide_True.
  - destruct (deref (residents db) (c_resident_id c.2)) as [x|] eqn:Hx; [|done]. simpl.
    rewrite app_nil_r, length_bind_singleton, join_latest_length.
    rewrite decide_False; [done|]. intros Hs. apply Hn. split; [|done].
    unfold has_resident. rewrite Hx. by eexists.
Qed.

(** Reports 5 and 9.  Each category (report 5) or ward (report 9) has at
    most one row; the totals of the rows add up to the number of complaints
    that are counted, those with a category row (report 5) or a resident row
    (report 9) and at least one status event; the rows are ordered by total
    descending; every resolution rate lies between 0 and 100. *)
Theorem statistics_totals (db : database) :
  (NoDup (fst <$> resolution_statistics db)
   ∧ sum_Z ((λ g : (Z * service_category) * stats, total_complaints g.2)
              <$> resolution_statistics db)
     = sql_count (filter (λ c, has_category db c ∧ has_status db c)
                    (scan (complaints db)))
   ∧ StronglySorted (desc (λ g : (Z * service_category) * stats,
                             VInt (total_complaints g.2)))
       (resolution_statistics db)
   ∧ ∀ g, g ∈ resolution_statistics db →
          0 ≤ hundredths_of (resolution_rate g.2) ≤ 10000)
  ∧ (NoDup (fst <$> ward_performance db)
     ∧ sum_Z ((λ g : value * stats, total_complaints g.2) <$> ward_performance db)
       = sql_count (filter (λ c, has_resident db c ∧ has_status db c)
                      (scan (complaints db)))
     ∧ StronglySorted (desc (λ g : value * stats, VInt (total_complaints g.2)))
         (ward_performance db)
     ∧ ∀ g, g ∈ ward_performance db →
            0 ≤ hundredths_of (resolution_rate g.2) ≤ 10000).
Proof.
  split.
  - unfold resolution_statistics.
    match goal with
    | |- context [group_by fst ?l] =>
        destruct (grouped_stats_totals fst snd l) as (Hnd & Hsum & Hrate)
    end.
    split; [by rewrite order_by_perm|]. split; [|split].
    + erewrite sum_Z_perm; [|apply fmap_Permutation, order_by_perm].
      rewrite Hsum. unfold sql_count. f_equal.
      apply length_bind_choice. intros c. apply counted_by_category_length.
    + apply order_by_sorted; apply _.
    + intros g Hg. apply elem_of_order_by in Hg. by apply Hrate.
  - unfold ward_performance.
    match goal with
    | |- context [group_by fst ?l] =>
        destruct (grouped_stats_totals fst snd l) as (Hnd & Hsum & Hrate)
    end.
    split; [by rewrite order_by_perm|]. split; [|split].
    + erewrite sum_Z_perm; [|apply fmap_Permutation, order_by_perm].
      rewrite Hsum. unfold sql_count. f_equal.
      apply length_bind_choice. intros c. apply counted_by_ward_length.
    + apply order_by_sorted; apply _.
    + intros g Hg. apply elem_of_order_by in Hg. by apply Hrate.
Qed.

Lemma rounding_sum (T : Z) (cs : list Z) :
  0 < T →
  let h c := hundredths_of (rate_cell c T) in
  2 * T * sum_Z (h <$> cs) ≤ 20000 * sum_Z cs + Z.of_nat (length cs) * T
  ∧ 20000 * sum_Z cs + Z.of_nat (length cs) * T
    ≤ 2 * T * sum_Z (h <$> cs) + 2 * Z.of_nat (length cs) * T.
Proof.
  intros HT h. induction cs as [|c cs IH]; [simpl; lia|].
  rewrite fmap_cons, !sum_Z_cons. simpl length.
  assert (2 * T * h c ≤ 20000 * c + T < 2 * T * h c + 2 * T) as Hc.
  { unfold h, rate_cell. rewrite decide_False by lia. simpl.
    pose proof (Z.div_mod (2 * (c * 10000) + T) (2 * T)) as Hdm.
    pose proof (Z.mod_pos_bound (2 * (c * 10000) + T) (2 * T)) as Hmod.
    lia. }
  lia.
Qed.

Lemma has_category_all db :
  referential_integrity db →
  filter (has_category db) (scan (complaints db)) = scan (complaints db).
Proof.
  intros Hri. apply filter_all. intros [k c] Hc. apply elem_of_scan in Hc.
  by destruct (referential_integrity_lookup db k c Hri Hc).
Qed.

(** Report 8.  Each category with at least one complaint has one row, with
    a positive count; the counts add up to the number of complaints that
    have a category row, and the rows are ordered by count descending.  The
    percentages are taken of all the complaints: when every complaint has its
    category row they add up to 100.00, within half a hundredth per row. *)
Theorem top_categories_shares (db : database) :
  let rows := top_complaint_categories db in
  let T := sql_count (scan (complaints db)) in
  NoDup (fst <$> rows)
  ∧ (∀ g, g ∈ rows → 0 < g.2)
  ∧ sum_Z (snd <$> rows) = sql_count (filter (has_category db) (scan (complaints db)))
  ∧ StronglySorted (desc (λ g : (Z * service_category) * Z, VInt g.2)) rows
  ∧ (referential_integrity db → rows ≠ [] →
     2 * Z.abs (sum_Z ((λ g, hundredths_of (rate_cell g.2 T)) <$> rows) - 10000)
     ≤ Z.of_nat (length rows)).
Proof.
  intros rows T.
  assert (rows ≡ₚ (λ g : (Z * service_category) * list (Z * service_category),
                     (g.1, sql_count g.2))
                  <$> group_by id
                        (c ← scan (complaints db); sc ← join_categories db c.2; [sc]))
    as Hperm by apply order_by_perm.
  assert (sum_Z (snd <$> rows)
          = sql_count (filter (has_category db) (scan (complaints db)))) as Hsum.
  { rewrite (sum_Z_perm _ _ (fmap_Permutation _ _ _ Hperm)).
    rewrite <-list_fmap_compose.
    etransitivity; [exact (group_by_sizes id _)|].
    unfold sql_count. f_equal.
    apply length_bind_choice. intros c. rewrite length_bind_singleton.
    apply join_categories_length. }
  split; [|split; [|split; [done|split]]].
  - rewrite Hperm, <-list_fmap_compose. apply (group_by_keys id).
  - intros g Hg. rewrite Hperm in Hg.
    apply list_elem_of_fmap in Hg as ([k m] & -> & Hm).
    apply elem_of_group_by in Hm as [_ Hne]. simpl.
    destruct m; [done|]. rewrite sql_count_cons. unfold sql_count. lia.
  - apply order_by_sorted; apply _.
  - intros Hri Hne.
    rewrite has_category_all in Hsum by done. fold T in Hsum.
    assert (0 < T) as HT.
    { destruct rows as [|g rows'] eqn:E; [done|].
      unfold T, sql_count. destruct (scan (complaints db)) as [|c l] eqn:Es.
      - exfalso. unfold rows, top_complaint_categories in E. rewrite Es in E.
        discriminate E.
      - simpl length. lia. }
    pose proof (rounding_sum T (snd <$> rows) HT) as [Hlo Hhi].
    rewrite <-list_fmap_compose in Hlo, Hhi. rewrite length_fmap, Hsum in Hlo, Hhi.
    change ((λ c, hundredths_of (rate_cell c T)) ∘ snd)
      with (λ g : (Z * service_category) * Z, hundredths_of (rate_cell g.2 T))
      in Hlo, Hhi.
    nia.
Qed.

Lemma top_categories_shares_witness :
  referential_integrity scenario_thirds
  ∧ top_complaint_categories scenario_thirds ≠ []
  ∧ sum_Z ((λ g, hundredths_of
                   (rate_cell g.2 (sql_count (scan (complaints scenario_thirds)))))
           <$> top_complaint_categories scenario_thirds) = 9999
  ∧ 2 * Z.abs (sum_Z ((λ g, hundredths_of
                              (rate_cell g.2
                                 (sql_count (scan (complaints scenario_thirds)))))
                      <$> top_complaint_categories scenario_thirds) - 10000)
    ≤ Z.of_nat (length (top_complaint_categories scenario_thirds)).
Proof.
  assert (referential_integrity scenario_thirds) as Hri
    by (apply (bool_decide_unpack _); vm_compute; exact I).
  assert (top_complaint_categories scenario_thirds ≠ []) as Hne
    by (vm_compute; discriminate).
  split; [exact Hri|]. split; [exact Hne|]. split; [vm_compute; reflexivity|].
  destruct (top_categories_shares scenario_thirds) as (_ & _ & _ & _ & Hshare).
  exact (Hshare Hri Hne).
Defined.

(** ** Report 2 *)

Lemma sql_2_categories_rows db :
  sql_2_categories db = category_row <$> scan (service_categories db).
Proof. reflexivity. Qed.

Lemma category_name_unknown (l : list (Z * service_category)) (p : string) :
  (∀ sc, sc ∈ l → pretty sc.1 ≠ p) →
  category_name_of (category_row <$> l) p = Ok "Unknown".
Proof.
  induction l as [|sc l IH]; intros Hno; [done|].
  rewrite fmap_cons. simpl. rewrite decide_False by (apply Hno; left).
  apply IH. intros sc' Hsc'. apply Hno. by right.
Qed.

Lemma category_name_found (l : list (Z * service_category)) k sc :
  NoDup l.*1 → (k, sc) ∈ l →
  category_name_of (category_row <$> l) (pretty k) = Ok (category_name sc).
Proof.
  induction l as [|[k' sc'] l IH]; intros Hnd Hin; [by apply elem_of_nil in Hin|].
  rewrite fmap_cons in Hnd. apply NoDup_cons in Hnd as [Hk' Hnd].
  rewrite fmap_cons. simpl. destruct (decide (pretty k' = pretty k)) as [Heq|Hne].
  - apply (inj pretty) in Heq. subst k'.
    apply elem_of_cons in Hin as [Hin|Hin]; [by simplify_eq|].
    exfalso. apply Hk'. apply list_elem_of_fmap. by exists (k, sc).
  - apply elem_of_cons in Hin as [Hin|Hin]; [by simplify_eq|]. by apply IH.
Qed.

Lemma for_each_category_lines (l : list (Z * service_category)) (w : world) :
  for_each (category_row <$> l)
    (λ cat, id ← lift (row_get cat "category_id");
            name ← lift (row_get cat "category_name");
            print (str_cell id +:+ ". " +:+ str_cell name)) w
  = (Returns tt, writes (category_line <$> l) w).
Proof.
  revert w. induction l as [|sc l IH]; intros w; [done|].
  rewrite fmap_cons.
  change (for_each (?x :: ?r) ?b) with (b x;; for_each r b).
  erewrite run_bind; [apply IH|reflexivity].
Qed.

Lemma writes_fields (os : list output) (w : world) :
  stdin (writes os w) = stdin w ∧ conn (writes os w) = conn w
  ∧ tables (writes os w) = tables w ∧ now (writes os w) = now w.
Proof. revert w. induction os as [|o os IH]; intros w; [done|]. apply (IH (write o w)). Qed.

Lemma uniform_by_category db p : uniform_results (sql_2_complaints_by_category db p).
Proof.
  unfold sql_2_complaints_by_category.
  solve_uniform ["complaint_id"; "resident_name"; "title"; "submission_date"; "status"].
Qed.

(** Report 2 compares the line read with the categories twice: the query
    compares it with the category of the complaints as a number, when it is
    the text of one; the title is looked up by comparing the text itself
    with the decimal text of each category id.  So the title carries the name
    of the category when the line is the decimal text of its id, and
    "Unknown" for any other line, also for one (such as [01]) that selects a
    category in the query.  The method prints the categories, asks for an id,
    runs the query and prints its rows under that title. *)
Theorem category_report (w : world) (p : string) (rest : list event) :
  conn w = Held → stdin w = Line p :: rest →
  let db := tables w in
  ∃ name,
    ((∀ k sc, service_categories db !! k = Some sc → pretty k ≠ p) → name = "Unknown")
    ∧ (∀ k sc, service_categories db !! k = Some sc → pretty k = p →
               name = category_name sc)
    ∧ query_2_complaints_by_category w
      = (Returns tt,
         writes (table_output (sql_2_complaints_by_category db p)
                   ("Complaints for " +:+ name))
           (log_statement (SelectByCategory p)
              (set_stdin rest
                 (write (Prompted (nl +:+ "Enter category ID: "))
                    (writes (category_line <$> scan (service_categories db))
                       (log_statement SelectCategories
                          (write (Printed (nl +:+ "Available categories:")) w))))))).
Proof.
  intros Hconn Hin db.
  assert (∃ name, category_name_of (sql_2_categories db) p = Ok name
                  ∧ ((∀ k sc, service_categories db !! k = Some sc → pretty k ≠ p) →
                     name = "Unknown")
                  ∧ (∀ k sc, service_categories db !! k = Some sc → pretty k = p →
                             name = category_name sc)) as (name & Hname & Hu & Hf).
  { rewrite sql_2_categories_rows.
    destruct (decide (Exists (λ sc : Z * service_category, pretty sc.1 = p)
                        (scan (service_categories db)))) as [Hyes|Hno].
    - apply Exists_exists in Hyes as ([k sc] & Hsc & Hp). simpl in Hp. subst p. exists (category_name sc). split; [|split].
      + apply category_name_found; [apply NoDup_scan_keys|done].
      + intros Hno. apply elem_of_scan in Hsc. by destruct (Hno k sc Hsc).
      + intros k' sc' Hsc' Heq. apply (inj pretty) in Heq. subst k'.
        apply elem_of_scan in Hsc. congruence.
    - exists "Unknown". split; [|split; [done|]].
      + apply category_name_unknown. intros sc Hsc Hp. apply Hno.
        apply Exists_exists. by exists sc.
      + intros k sc Hsc Hp. exfalso. apply Hno. apply Exists_exists.
        exists (k, sc). split; [by apply elem_of_scan|done]. }
  exists name. split; [done|]. split; [done|].
  unfold query_2_complaints_by_category. rewrite bind_print.
  exec_query Hconn.
  change (eval_statement SelectCategories _ _) with (sql_2_categories db).
  rewrite sql_2_categories_rows in *.
  match goal with
  | |- context [(for_each ?l ?b ≫= ?k) ?w0] =>
      rewrite (run_bind _ k w0 _ _ (for_each_category_lines _ w0))
  end.
  apply run_try_returns.
  match goal with
  | |- context [(input ?q ≫= ?k) ?w0] =>
      destruct (writes_fields (category_line <$> scan (service_categories db))
                  (log_statement SelectCategories
                     (write (Printed (nl +:+ "Available categories:")) w)))
        as (Hin' & Hconn' & Htab' & Hnow');
      rewrite (run_bind _ k w0 _ _
                 (run_input q p rest w0 (eq_trans Hin' Hin)))
  end.
  exec_query (eq_trans Hconn' Hconn).
  match goal with
  | |- context [eval_statement (SelectByCategory p) ?n ?t] =>
      change (eval_statement (SelectByCategory p) n t)
        with (sql_2_complaints_by_category t p);
      change t with (tables (writes (category_line <$> scan (service_categories db))
                       (log_statement SelectCategories
                          (write (Printed (nl +:+ "Available categories:")) w))))
  end.
  rewrite Htab'.
  change (tables (log_statement _ _)) with db.
  rewrite Hname.
  match goal with
  | |- context [(lift (Ok ?n) ≫= ?k) ?w0] =>
      rewrite (run_bind (lift (Ok n)) k w0 w0 n eq_refl)
  end.
  by rewrite print_results_output by apply uniform_by_category.
Qed.

Lemma category_report_witness :
  sql_2_complaints_by_category scenario_B "01" ≠ []
  ∧ stdout (query_2_complaints_by_category (world_of scenario_B ["01"])).2 !! 4%nat
    = Some (Printed "Complaints for Unknown")
  ∧ stdout (query_2_complaints_by_category (world_of scenario_B ["1"])).2 !! 4%nat
    = Some (Printed "Complaints for Pothole").
Proof.
  split; [vm_compute; discriminate|].
  destruct (category_report (world_of scenario_B ["01"]) "01" [] eq_refl eq_refl)
    as (n1 & Hu & _ & ->).
  destruct (category_report (world_of scenario_B ["1"]) "1" [] eq_refl eq_refl)
    as (n2 & _ & Hf & ->).
  rewrite Hu, (Hf 1 (ServiceCategory "Pothole")).
  - split; vm_compute; reflexivity.
  - vm_compute. reflexivity.
  - vm_compute. reflexivity.
  - intros k sc Hsc. apply elem_of_map_to_list in Hsc. vm_compute in Hsc.
    apply list_elem_of_singleton in Hsc. simplify_eq. vm_compute. discriminate.
Defined.

(** ** The width of the lines of a table *)

Lemma concat_cons2 (sep x y : string) (l : list string) :
  String.concat sep (x :: y :: l) = x +:+ sep +:+ String.concat sep (y :: l).
Proof. reflexivity. Qed.

Lemma concat_length (sep : string) (l : list string) :
  l ≠ [] →
  String.length (String.concat sep l)
  = (sum_nat (String.length <$> l) + String.length sep * (length l - 1))%nat.
Proof.
  induction l as [|x l IH]; intros Hne; [done|].
  destruct l as [|y l].
  - simpl. lia.
  - rewrite concat_cons2, !string_length_app, IH by done.
    rewrite !fmap_cons. simpl. lia.
Qed.

Lemma sum_nat_const {A} (f : A → nat) (n : nat) (l : list A) :
  Forall (λ x, f x = n) l → sum_nat (f <$> l) = (n * length l)%nat.
Proof.
  induction 1 as [|x l Hx _ IH]; [simpl; lia|].
  rewrite fmap_cons. simpl. rewrite IH, Hx. lia.
Qed.

(** The length of the lines of a table.  A line has, for each column, the
    length of the value or 15 if that is more, and 3 for each separator.  So
    when the names of the columns and the values of a row are at most 15
    characters long, the line of the row is as long as the header,
    18 n - 3 for n columns; a longer value makes its line longer by what it
    exceeds 15. *)
Theorem table_line_widths (first r : row) :
  first ≠ [] → length r = length first →
  String.length (row_line r)
  = (sum_nat ((column_width ∘ str_cell ∘ snd) <$> r) + 3 * (length r - 1))%nat
  ∧ String.length (header_line first)
    = (sum_nat ((column_width ∘ fst) <$> first) + 3 * (length first - 1))%nat
  ∧ (Forall (λ kv, (String.length kv.1 ≤ 15)%nat) first →
     Forall (λ kv, (String.length (str_cell kv.2) ≤ 15)%nat) r →
     String.length (row_line r) = String.length (header_line first)
     ∧ String.length (header_line first) = (18 * length first - 3)%nat).
Proof.
  intros Hne Hlen.
  assert (r ≠ []) as Hr by (destruct r, first; done).
  assert (String.length (row_line r)
          = (sum_nat ((column_width ∘ str_cell ∘ snd) <$> r) + 3 * (length r - 1))%nat)
    as Hrow.
  { unfold row_line. rewrite concat_length by (by destruct r).
    rewrite length_fmap, <-list_fmap_compose. simpl. f_equal.
    f_equal. apply list_fmap_ext. intros i kv _. simpl. apply pad15_length. }
  assert (String.length (header_line first)
          = (sum_nat ((column_width ∘ fst) <$> first) + 3 * (length first - 1))%nat)
    as Hhead.
  { unfold header_line, row_keys. rewrite concat_length by (by destruct first).
    rewrite !length_fmap, <-!list_fmap_compose. simpl. f_equal.
    f_equal. apply list_fmap_ext. intros i kv _. simpl. apply pad15_length. }
  split; [done|]. split; [done|].
  intros Hnames Hvalues. rewrite Hrow, Hhead.
  rewrite (sum_nat_const _ 15%nat r), (sum_nat_const _ 15%nat first).
  - destruct first; [done|]. simpl length in *. lia.
  - eapply Forall_impl; [exact Hnames|]. intros kv Hkv.
    unfold compose, column_width. simpl in *. by apply Nat.max_r.
  - eapply Forall_impl; [exact Hvalues|]. intros kv Hkv.
    unfold compose, column_width. simpl in *. by apply Nat.max_r.
Qed.

Lemma table_line_widths_witness :
  String.length (row_line [("status", CText "Submitted");
                           ("status_date", CText "2024-01-01")]) = 33%nat
  ∧ String.length (row_line [("status", CText "Waiting for parts");
                             ("status_date", CText "2024-01-05")]) = 35%nat.
Proof.
  pose (first := [("status", CText "Submitted"); ("status_date", CText "2024-01-01")]).
  pose (r := [("status", CText "Waiting for parts"); ("status_date", CText "2024-01-05")]).
  assert (first ≠ []) as Hne by done.
  destruct (table_line_widths first first Hne eq_refl) as (_ & _ & Hfit).
  destruct (table_line_widths first r Hne eq_refl) as (Hlong & _).
  split.
  - destruct Hfit as [H1 H2]; [repeat constructor; simpl; lia..|].
    etransitivity; [exact H1|]. etransitivity; [exact H2|reflexivity].
  - etransitivity; [exact Hlong|reflexivity].
Defined.

(** ** The numbering of the status events *)

Lemma numbered_rn_from (f : status_log → nat → sl_row) (l : list status_log) (n : nat) :
  (∀ e i, sl_rn (f e i) = i) →
  sl_rn <$> imap (λ i e, f e (n + i)%nat) l = seq n (length l).
Proof.
  intros Hf. revert n. induction l as [|e l IH]; intros n; [done|].
  rewrite imap_cons, fmap_cons, Hf. simpl. f_equal; [lia|].
  rewrite <-(IH (S n)). f_equal. apply imap_ext. intros i y _. simpl. f_equal. lia.
Qed.

Lemma length_bind_sum {A B} (f : A → list B) (l : list A) :
  sql_count (l ≫= f) = sum_Z ((λ x, sql_count (f x)) <$> l).
Proof.
  induction l as [|x l IH]; [done|].
  rewrite bind_cons, fmap_cons, sum_Z_cons, <-IH. unfold sql_count.
  rewrite length_app. lia.
Qed.

Lemma numbered_length k logs :
  length (numbered k logs)
  = length (filter (λ e, l_complaint_id e = k) (snd <$> logs)).
Proof.
  unfold numbered, partition_rows. rewrite length_imap.
  apply Permutation_length, order_by_perm.
Qed.

(** The derived relation of the latest status.  It has one row for each
    status event; within the events of a complaint the row numbers are
    1, 2, ..., in the order of the dates, latest first; the join with a
    complaint keeps at most one row; and the current status of a complaint
    depends on the events of that complaint only. *)
Theorem latest_status_numbering (db : database) :
  length (latest_status_subquery db) = length (scan (status_logs db))
  ∧ (∀ k, sl_rn <$> numbered k (scan (status_logs db))
          = seq 1 (length (partition_rows k (scan (status_logs db))))
          ∧ sl_status_date <$> numbered k (scan (status_logs db))
            = status_date <$> partition_rows k (scan (status_logs db))
          ∧ StronglySorted (desc status_date)
              (partition_rows k (scan (status_logs db))))
  ∧ (∀ cid, (length (join_latest db cid) ≤ 1)%nat)
  ∧ (∀ db' cid, events_of db' cid = events_of db cid →
                current_status db' cid = current_status db cid).
Proof.
  split; [|split; [|split]].
  - apply Nat2Z.inj. change (sql_count (latest_status_subquery db)
                             = sql_count (scan (status_logs db))).
    unfold latest_status_subquery. cbv zeta. rewrite length_bind_sum.
    erewrite list_fmap_ext;
      [|intros i k _; unfold sql_count; rewrite numbered_length; reflexivity].
    etransitivity; [apply (group_sizes l_complaint_id (snd <$> scan (status_logs db)))|].
    + apply NoDup_remove_dups.
    + intros e He. apply elem_of_remove_dups.
      apply list_elem_of_fmap in He as (ie & -> & Hie).
      apply list_elem_of_fmap. by exists ie.
    + unfold sql_count. by rewrite length_fmap.
  - intros k. split; [|split].
    + unfold numbered.
      apply (numbered_rn_from
               (λ e i, SlRow (l_complaint_id e) (status e) (status_date e) i) _ 1).
      done.
    + unfold numbered. rewrite fmap_imap. simpl.
      induction (partition_rows k (scan (status_logs db))) as [|e l IH]; [done|].
      rewrite imap_cons, fmap_cons. f_equal. rewrite <-IH. by apply imap_ext.
    + unfold partition_rows. apply order_by_sorted; apply _.
  - intros cid. rewrite join_latest_length. case_decide; lia.
  - intros db' cid Heq. rewrite !current_status_head, !partition_rows_events.
    by rewrite Heq.
Qed.

(** ** Printed identities as parameters *)

Lemma digit_of_pretty_char (d : N) :
  (d < 10)%N → digit_of (pretty_N_char d) = Some (Z.of_N d).
Proof.
  intros Hd.
  assert (d = 0 ∨ d = 1 ∨ d = 2 ∨ d = 3 ∨ d = 4 ∨ d = 5 ∨ d = 6 ∨ d = 7
          ∨ d = 8 ∨ d = 9)%N as Hcases by lia.
  repeat (destruct Hcases as [->|Hcases]; [reflexivity|]). by subst.
Qed.

Lemma parse_digits_pretty_go (x : N) (s : string) :
  parse_digits 0 (pretty_N_go x s) = parse_digits (Z.of_N x) s.
Proof.
  revert s. induction (N.lt_wf_0 x) as [x _ IH]; intros s.
  assert (x = 0 ∨ 0 < x)%N as [->|Hpos] by lia; [by rewrite pretty_N_go_0|].
  rewrite pretty_N_go_step by done.
  rewrite IH by (by apply N.div_lt).
  simpl. rewrite digit_of_pretty_char by (by apply N.mod_lt).
  f_equal. rewrite (N.div_mod x 10) at 3 by done. lia.
Qed.

Lemma parse_int_unsigned (c : ascii) (r : string) :
  is_Some (digit_of c) → parse_int (String c r) = parse_digits 0 (String c r).
Proof.
  intros [d Hd].
  destruct c as [[] [] [] [] [] [] [] []]; try reflexivity;
    by vm_compute in Hd.
Qed.

Lemma parse_int_pretty_pos (p : positive) :
  parse_int (pretty_N_go (N.pos p) "") = Some (Z.pos p)
  ∧ parse_unsigned (pretty_N_go (N.pos p) "") = Some (Z.pos p).
Proof.
  pose proof (parse_digits_pretty_go (N.pos p) "") as Hd. simpl in Hd.
  destruct (pretty_N_go (N.pos p) "") as [|c r] eqn:E; [by simplify_eq/=|].
  assert (is_Some (digit_of c)) as Hc.
  { simpl in Hd. destruct (digit_of c); [by eexists|done]. }
  split; [by rewrite parse_int_unsigned|done].
Qed.

Lemma parse_int_pretty (z : Z) : parse_int (pretty z) = Some z.
Proof.
  destruct z as [|p|p]; [reflexivity|..].
  - apply parse_int_pretty_pos.
  - change (pretty (Z.neg p)) with ("-" +:+ pretty_N_go (N.pos p) "").
    change (parse_int ("-" +:+ ?s)) with (Z.opp <$> parse_unsigned s).
    by rewrite (proj2 (parse_int_pretty_pos p)).
Qed.

(** The text Python prints for an integer is read back by the store as
    that integer.  So an identity printed by a report can be typed as a
    parameter: the complaint id of a listed complaint, typed into report 10,
    selects that complaint's detail row and its status events. *)
Theorem printed_id_selects (db : database) (k : Z) :
  numeric_affinity (pretty k) = VInt k
  ∧ (∀ c r sc, complaints db !! k = Some c →
       deref (residents db) (c_resident_id c) = Some r →
       deref (service_categories db) (c_category_id c) = Some sc →
       complaint_details db (pretty k) = [((k, c), r, sc)]
       ∧ complaint_timeline db (pretty k) ≡ₚ events_of db k).
Proof.
  assert (numeric_affinity (pretty k) = VInt k) as Hk
    by (unfold numeric_affinity; by rewrite parse_int_pretty).
  split; [done|]. intros c r sc Hc Hr Hsc. split.
  - by rewrite complaint_details_lookup, Hk, Hc, Hr, Hsc.
  - by apply complaint_timeline_events.
Qed.

Lemma printed_id_selects_witness :
  numeric_affinity "-12" = VInt (-12)
  ∧ length (complaint_details scenario_B "1") = 1%nat.
Proof.
  split; [exact (proj1 (printed_id_selects scenario_B (-12)))|].
  destruct (proj2 (printed_id_selects scenario_B 1)
              (Complaint (VInt 1) (VInt 1) "Hole" (Some "desc") (VText "2024-01-01"))
              (1, Resident "A" "B" (VInt 3) None None)
              (1, ServiceCategory "Pothole") eq_refl eq_refl eq_refl) as [Hd _].
  change (pretty 1) with "1" in Hd. by rewrite Hd.
Defined.

(** ** A run that exits at once *)

(** A run in which the database file opens, the ingestion goes through and
    the first choice is 0.  The tables the ingestion left are committed to
    the database file, the menu is shown once, "Goodbye!" is printed, the
    session is released, no query is run and the rest of the input is left
    unread. *)
Theorem run_exit_at_once (w : world) (db : database) (l : string) (rest : list event) :
  reachable w = true →
  load_records csv_files (files w) (file_db w) = (db, None) →
  stdin w = Line l :: rest → strip l = "0" →
  run w
  = (Returns tt,
     set_conn Released
       (write (Printed "Goodbye!")
          (set_stdin rest
             (write (Prompted (nl +:+ "Enter your choice (0-10): "))
                (writes menu_output
                   (write (Printed "Database initialized successfully!")
                      (set_file_db db
                         (set_tables db
                            (set_conn Held
                               (writes
                                  [Printed "Welcome to the Municipal Complaints Database CLI!";
                                   Printed "Initializing database..."] w)))))))))).
Proof.
  intros Hr Hload Hin H0. unfold run, run_for. rewrite bind_print.
  unfold try_finally, try_except.
  unfold mbind at 1. unfold M_bind at 1.
  rewrite (initialize_database_loaded
             (write (Printed "Welcome to the Municipal Complaints Database CLI!") w)
             db None Hr Hload).
  match goal with
  | |- context [menu_loop (S ?n) ?w1] =>
      assert (stdin w1 = Line l :: rest) as Hin' by (simpl; exact Hin);
      rewrite (menu_loop_exit n w1 l rest Hin' H0)
  end.
  cbv beta iota. unfold disconnect. vm_compute. reflexivity.
Qed.

Lemma run_exit_at_once_witness :
  file_db (run (fresh_world [Line " 0"; Line "1"])).2
  = (load_records csv_files files_B empty_database).1
  ∧ conn (run (fresh_world [Line " 0"; Line "1"])).2 = Released
  ∧ stdin (run (fresh_world [Line " 0"; Line "1"])).2 = [Line "1"]
  ∧ executed (run (fresh_world [Line " 0"; Line "1"])).2 = [].
Proof.
  rewrite (run_exit_at_once (fresh_world [Line " 0"; Line "1"])
             (load_records csv_files files_B empty_database).1 " 0" [Line "1"]
             eq_refl);
    [|vm_compute; reflexivity|reflexivity|reflexivity].
  repeat split.
Defined.
